(** * Retro photobooth: capture pipeline, countdown, captioning and strip export

  A shallow embedding of the logic of [App.tsx] (takePhoto, startCountdown,
  clearPhotos, handleGenerateCaption, downloadPhotoStrip) and of
  [services/gemini.ts] (getAiClient, generateVintageCaption), with the
  properties the specification states about them.

  Conventions.
  - React state is one record, [AppState]; a [setX] call is a record update.
    Handlers run to completion and React re-renders between two discrete
    events, so a handler reads the state left by the previous event.
  - Browser collaborators (rasterising a video frame, PNG encoding, text
    measurement, the Gemini service) are Section variables or fields of an
    environment record: their results are inputs of the model.
  - A JavaScript number that may be fractional (Math.random(), a text width)
    is the rational [Q] it denotes; where the code computes with such
    numbers (the noise of takePhoto) every operation rounds its exact
    result to the nearest IEEE 754 double, as [Double.round] does.
  - A thrown exception is the [Thrown] constructor of [completion]. *)

From Stdlib Require Import ZArith QArith Qround List String Ascii Bool Lia.
From Stdlib Require Import Setoid Morphisms.
From Stdlib Require Import DecimalString DecimalPos DecimalZ Lqa.
Import ListNotations.

Local Open Scope Z_scope.
Local Open Scope string_scope.
Local Open Scope list_scope.

(* ===================================================================== *)
(** ** JavaScript primitives used by the code *)
(* ===================================================================== *)

Module JS.

(** Completion of a synchronous call: normal return or a thrown error. *)
Inductive completion (A : Type) : Type :=
  | Returned (a : A)
  | Thrown (err : string).
Arguments Returned {A} a.
Arguments Thrown {A} err.

(** [Number.prototype.toString] on an integer (Date.now() is one). *)
Definition toString (z : Z) : string := NilZero.string_of_int (Z.to_int z).

(** Strict inequality of Q as a boolean: [a < b]. *)
Definition Qlt_bool (a b : Q) : bool := negb (Qle_bool b a).

(** Storing a number into a [Uint8ClampedArray] element (ECMAScript
    ToUint8Clamp): clamp to 0..255, round to nearest, ties to even.
    [ImageData.data] is such an array. *)
Definition ToUint8Clamp (x : Q) : Z :=
  if Qle_bool x 0 then 0
  else if Qle_bool 255 x then 255
  else
    let f := Qfloor x in
    match Qcompare x (inject_Z f + (1 # 2)) with
    | Lt => f
    | Gt => f + 1
    | Eq => if Z.even f then f else f + 1
    end.

(** [s.split(sep)] for a one-character separator: the pieces between
    separators, empty pieces kept; never the empty list. *)
Fixpoint split (sep : ascii) (s : string) : list string :=
  match s with
  | EmptyString => [EmptyString]
  | String c rest =>
      if Ascii.eqb c sep then EmptyString :: split sep rest
      else
        match split sep rest with
        | [] => [String c EmptyString]
        | w :: ws => String c w :: ws
        end
  end.

(** Truthiness of a string: only the empty string is falsy. *)
Definition truthy (s : string) : bool :=
  match s with EmptyString => false | _ => true end.

End JS.

Import JS.

(* ===================================================================== *)
(** ** JavaScript Number arithmetic: IEEE 754 binary64 *)
(* ===================================================================== *)

Module Double.

(** Every finite double is a multiple of 2^-1074. *)
Definition scale : Z := 2 ^ 1074.

(** Round to the nearest integer, ties to even. *)
Definition rne (x : Q) : Z :=
  let f := Qfloor x in
  match Qcompare x (inject_Z f + (1 # 2)) with
  | Lt => f
  | Gt => f + 1
  | Eq => if Z.even f then f else f + 1
  end.

(** For [n >= 0] counted in units of 2^-1074: the doubles around [n] are
    the multiples of [2 ^ shift n], which leaves 53 significant bits, or
    fewer in the subnormal range (shift 0). *)
Definition shift (n : Q) : Z := Z.max (Z.log2 (Qfloor n) - 52) 0.

Definition roundScaled (n : Q) : Z :=
  let s := shift n in rne (n / inject_Z (2 ^ s)) * 2 ^ s.

Definition roundPos (x : Q) : Q :=
  (inject_Z (roundScaled (x * inject_Z scale)) / inject_Z scale)%Q.

(** The double nearest to [x], ties to the even significand (the rounding
    of every JavaScript arithmetic operation). Numbers of magnitude 2^1024
    and more, which round to an infinity, do not occur here. *)
Definition round (x : Q) : Q :=
  if Qle_bool 0 x then roundPos x else (- roundPos (- x))%Q.

(** [a * b], [a - b] and [a + b] on Numbers. *)
Definition mul (a b : Q) : Q := round (a * b).
Definition sub (a b : Q) : Q := round (a - b).
Definition add (a b : Q) : Q := round (a + b).

Arguments round : simpl never.
Arguments mul : simpl never.
Arguments sub : simpl never.
Arguments add : simpl never.

End Double.

(* ===================================================================== *)
(** ** types.ts and the application state *)
(* ===================================================================== *)

Record Photo : Type := mkPhoto {
  id : string;
  dataUrl : string;
  timestamp : Z;
  filter : string
}.

Record FilterConfig : Type := mkFilter {
  name : string;
  label : string;
  class : string;
  cssFilter : string
}.

Definition FILTERS : list FilterConfig :=
  [ mkFilter "normal" "Normal" EmptyString "none";
    mkFilter "grayscale" "B&W" "grayscale" "grayscale(100%) contrast(110%)";
    mkFilter "sepia" "Sepia" "sepia" "sepia(80%) contrast(90%) brightness(110%)";
    mkFilter "vintage" "Vintage" "sepia contrast-125 brightness-90"
             "sepia(50%) contrast(125%) brightness(90%) saturate(80%)";
    mkFilter "warm" "Warm" EmptyString "sepia(30%) saturate(140%) hue-rotate(-10deg)" ].

(** [FILTERS[0]], the initial selection. *)
Definition FILTERS_0 : FilterConfig :=
  nth 0 FILTERS (mkFilter "normal" "Normal" EmptyString "none").

(** The [useState] cells of [App]. *)
Record AppState : Type := mkApp {
  photos : list Photo;
  selectedFilter : FilterConfig;
  countdown : option Z;
  isCapturing : bool;
  generatedCaption : string;
  isGeneratingCaption : bool
}.

Definition initialState : AppState :=
  mkApp [] FILTERS_0 None false EmptyString false.

Definition setPhotos (f : list Photo -> list Photo) (st : AppState) : AppState :=
  mkApp (f (photos st)) (selectedFilter st) (countdown st) (isCapturing st)
        (generatedCaption st) (isGeneratingCaption st).

Definition setSelectedFilter (f : FilterConfig) (st : AppState) : AppState :=
  mkApp (photos st) f (countdown st) (isCapturing st)
        (generatedCaption st) (isGeneratingCaption st).

Definition setCountdown (c : option Z) (st : AppState) : AppState :=
  mkApp (photos st) (selectedFilter st) c (isCapturing st)
        (generatedCaption st) (isGeneratingCaption st).

Definition setIsCapturing (b : bool) (st : AppState) : AppState :=
  mkApp (photos st) (selectedFilter st) (countdown st) b
        (generatedCaption st) (isGeneratingCaption st).

Definition setGeneratedCaption (s : string) (st : AppState) : AppState :=
  mkApp (photos st) (selectedFilter st) (countdown st) (isCapturing st)
        s (isGeneratingCaption st).

Definition setIsGeneratingCaption (b : bool) (st : AppState) : AppState :=
  mkApp (photos st) (selectedFilter st) (countdown st) (isCapturing st)
        (generatedCaption st) b.

(* ===================================================================== *)
(** ** Capture pipeline: takePhoto *)
(* ===================================================================== *)

Module Capture.

(** What [takePhoto] reads from a video element. *)
Record Video : Type := mkVideo {
  videoWidth : Z;
  videoHeight : Z;
  frame : list Z        (* the current frame, opaque to the pipeline *)
}.

(** The hidden canvas: [context2d] is false when [getContext('2d')]
    returns null. *)
Record Canvas : Type := mkCanvas {
  context2d : bool
}.

(** Everything outside React state that one call of [takePhoto] reads:
    the two refs, the values of [Math.random()] in call order, and the two
    successive readings of [Date.now()]. *)
Record Env : Type := mkEnv {
  videoRef : option Video;
  canvasRef : option Canvas;
  random : nat -> Q;
  nowId : Z;
  nowTimestamp : Z
}.

(** [(Math.random() * 20) - 10] *)
Definition noiseOf (u : Q) : Q := Double.sub (Double.mul u 20) 10.

(** The loop
    [for (i = 0; i < len; i += 4) { noise = ...; data[i] = data[i] + noise;
       data[i+1] = data[i+1] + noise; data[i+2] = data[i+2] + noise }]
    over the RGBA bytes; [k] counts the [Math.random()] calls made so far.
    Each sum is a Number (a double, not clamped); assigning it to the
    element stores it through the clamped byte array. A store past the end
    of the array is ignored. *)
Fixpoint noiseLoop (rnd : nat -> Q) (k : nat) (data : list Z) : list Z :=
  let noise := noiseOf (rnd k) in
  let store (d : Z) := ToUint8Clamp (Double.add (inject_Z d) noise) in
  match data with
  | r :: g :: b :: a :: rest =>
      store r :: store g :: store b :: a :: noiseLoop rnd (S k) rest
  | [r; g; b] => [store r; store g; store b]
  | [r; g] => [store r; store g]
  | [r] => [store r]
  | [] => []
  end.

(** What the loop leaves at index [i]: alpha bytes (index 3 mod 4) as
    they were, the other bytes with the noise of their pixel stored. *)
Definition storedAt (rnd : nat -> Q) (k i : nat) (d : Z) : Z :=
  if Nat.eqb (i mod 4) 3 then d
  else ToUint8Clamp (Double.add (inject_Z d) (noiseOf (rnd (k + i / 4)%nat))).

Section Pipeline.

(** The RGBA bytes on the canvas after the black fill, [ctx.filter =
    cssFilter], the mirrored [drawImage] and the transform reset: the
    unperturbed mirrored draw. *)
Variable drawMirrored : string -> Video -> list Z.

(** [canvas.toDataURL('image/png')] for a canvas of the given width,
    height and bytes. *)
Variable toDataURL : Z -> Z -> list Z -> string.

(** [ctx.getImageData(0, 0, w, h)] throws IndexSizeError when [w] or [h]
    is zero. *)
Definition getImageData (w h : Z) (pixels : list Z) : completion (list Z) :=
  if Z.eqb w 0 || Z.eqb h 0 then Thrown "IndexSizeError" else Returned pixels.

(** The bytes on the canvas when [toDataURL] is reached. *)
Definition capturedPixels (e : Env) (f : FilterConfig) (v : Video)
  : completion (list Z) :=
  let drawn := drawMirrored (cssFilter f) v in
  if negb (String.eqb (name f) "normal") then
    match getImageData (videoWidth v) (videoHeight v) drawn with
    | Thrown err => Thrown err
    | Returned data => Returned (noiseLoop (random e) 0 data)
    end
  else Returned drawn.

Definition newPhoto (e : Env) (f : FilterConfig) (v : Video) (px : list Z) : Photo :=
  mkPhoto (toString (nowId e))
          (toDataURL (videoWidth v) (videoHeight v) px)
          (nowTimestamp e)
          (name f).

(** [takePhoto], closed over the [selectedFilter] of the render that
    created it (the [f] argument); [setPhotos] is a functional update, so
    it appends to the current list. *)
Definition takePhoto (e : Env) (f : FilterConfig) (st : AppState)
  : completion AppState :=
  match videoRef e, canvasRef e with
  | Some video, Some canvas =>
      if negb (context2d canvas) then Returned st
      else
        match capturedPixels e f video with
        | Thrown err => Thrown err
        | Returned px =>
            Returned (setPhotos (fun prev => prev ++ [newPhoto e f video px]) st)
        end
  | _, _ => Returned st
  end.

(** A frame source the pipeline can use: both refs are set, the canvas
    gives a 2d context and the video has a frame of positive size. *)
Definition validFrameSource (e : Env) : Prop :=
  exists video canvas,
    videoRef e = Some video /\ canvasRef e = Some canvas /\
    context2d canvas = true /\
    0 < videoWidth video /\ 0 < videoHeight video.

(** No frame source: the video element or the drawing canvas is absent. *)
Definition noFrameSource (e : Env) : Prop :=
  videoRef e = None \/ canvasRef e = None.

End Pipeline.

End Capture.

(* ===================================================================== *)
(** ** services/gemini.ts *)
(* ===================================================================== *)

Module Gemini.

(** The part of the service's answer the code reads: [response.text],
    which may be undefined. *)
Record Response : Type := mkResponse {
  text : option string
}.

(** One [ai.models.generateContent] request as the code builds it. *)
Record Request : Type := mkRequest {
  apiKeyUsed : string;
  model : string;
  mimeType : string;
  data : option string;     (* [base64Image.split(",")[1]], maybe undefined *)
  prompt : string
}.

(** The process environment and the remote service. A rejected promise
    is a [Thrown] completion of the awaited call. *)
Record Env : Type := mkEnv {
  REACT_API_KEY : option string;
  generateContent : Request -> completion Response
}.

Definition PROMPT : string :=
  "You are a retro photobooth AI from the 90s. Look at this photo and generate a short, cool, vintage-style caption or 'vibe check' (max 10 words). It can be slightly sassy, poetic, or nostalgic. Format: plain text.".

Definition EMPTY_TEXT_FALLBACK : string := "Vibe check passed.".
Definition ERROR_FALLBACK : string := "Error developing caption...".

(** [getAiClient]: the client is represented by the key it was built
    with; [!apiKey] holds for undefined and for the empty string. *)
Definition getAiClient (e : Env) : completion string :=
  match REACT_API_KEY e with
  | Some apiKey =>
      if truthy apiKey then Returned apiKey else Thrown "API Key not found"
  | None => Thrown "API Key not found"
  end.

(** The request the [try] block builds for a client and an image. *)
Definition requestFor (ai : string) (base64Image : string) : Request :=
  let base64Data := nth_error (split "," base64Image) 1 in
  mkRequest ai "gemini-2.5-flash" "image/png" base64Data PROMPT.

(** The body of the [try] block: the requests that reached the remote
    service, and how the block completes. *)
Definition tryBlock (e : Env) (base64Image : string)
  : list Request * completion string :=
  match getAiClient e with
  | Thrown err => ([], Thrown err)
  | Returned ai =>
      let request := requestFor ai base64Image in
      ([request],
       match generateContent e request with
       | Thrown err => Thrown err
       | Returned response =>
           match text response with
           | Some t => Returned (if truthy t then t else EMPTY_TEXT_FALLBACK)
           | None => Returned EMPTY_TEXT_FALLBACK
           end
       end)
  end.

(** [try { ... } catch (error) { console.error(...); return "Error
    developing caption..." }]: the requests sent and the way the returned
    promise settles. *)
Definition generateVintageCaption (e : Env) (base64Image : string)
  : list Request * completion string :=
  let (sent, body) := tryBlock e base64Image in
  (sent,
   match body with
   | Returned caption => Returned caption
   | Thrown _ => Returned ERROR_FALLBACK
   end).

(** The external captioning call fails: the key is missing (or empty), or
    the request it sends is rejected. *)
Definition callFails (e : Env) (base64Image : string) : Prop :=
  getAiClient e = Thrown "API Key not found" \/
  exists ai err,
    getAiClient e = Returned ai /\
    generateContent e (requestFor ai base64Image) = Thrown err.

End Gemini.

(* ===================================================================== *)
(** ** Caption request: handleGenerateCaption and clearPhotos *)
(* ===================================================================== *)

Module Caption.

(** [handleGenerateCaption] up to its [await]: the new state and the
    argument handed to [generateVintageCaption], if the call is made.
    [photos[photos.length - 1]] on an index out of range is undefined,
    and reading [.dataUrl] of it throws. *)
Definition handleGenerateCaption_call (st : AppState)
  : completion (AppState * option string) :=
  if Nat.eqb (List.length (photos st)) 0 then Returned (st, None)
  else
    match nth_error (photos st) (List.length (photos st) - 1) with
    | Some p => Returned (setIsGeneratingCaption true st, Some (dataUrl p))
    | None => Thrown "TypeError"
    end.

(** [handleGenerateCaption] after the [await], run on the state current
    when the promise settles. *)
Definition handleGenerateCaption_resume (caption : string) (st : AppState)
  : AppState :=
  setIsGeneratingCaption false (setGeneratedCaption caption st).

(** The whole handler when nothing else happens while it awaits: the
    final state and the requests that reached the remote service. *)
Definition handleGenerateCaption (e : Gemini.Env) (st : AppState)
  : completion (AppState * list Gemini.Request) :=
  match handleGenerateCaption_call st with
  | Thrown err => Thrown err
  | Returned (st1, None) => Returned (st1, [])
  | Returned (st1, Some arg) =>
      match Gemini.generateVintageCaption e arg with
      | (_, Thrown err) => Thrown err
      | (sent, Returned caption) =>
          Returned (handleGenerateCaption_resume caption st1, sent)
      end
  end.

Definition clearPhotos (st : AppState) : AppState :=
  setGeneratedCaption EmptyString (setPhotos (fun _ => []) st).

End Caption.

(* ===================================================================== *)
(** ** Countdown: startCountdown and its interval callback *)
(* ===================================================================== *)

Module Countdown.

Import Capture.

(** A live [setInterval] timer of [startCountdown]: its local [count] and
    the [takePhoto] closure it captured, i.e. the filter selected when the
    countdown was started. *)
Record Timer : Type := mkTimer {
  timerId : nat;
  count : Z;
  closureFilter : FilterConfig
}.

(** React state, the live interval timers, and a log of the [takePhoto]
    invocations so far (the timer that made each one). *)
Record Machine : Type := mkMachine {
  app : AppState;
  timers : list Timer;
  nextTimerId : nat;
  captures : list nat
}.

Definition initialMachine : Machine := mkMachine initialState [] 0%nat [].

Inductive Event : Type :=
  | ClickShutter                                   (* startCountdown *)
  | IntervalFires (tid : nat) (e : Capture.Env)    (* a one-second tick *)
  | SelectFilter (f : FilterConfig)
  | ClickClear                                     (* clearPhotos *)
  | ClickCaption                                   (* handleGenerateCaption, to its await *)
  | CaptionSettled (caption : string).             (* ... and after it *)

Definition userAction (ev : Event) : bool :=
  match ev with IntervalFires _ _ => false | _ => true end.

(** The invariant of the page: at most one live timer; a live timer means
    [isCapturing]; a live timer has 1 to 3 ticks left; timer names in use
    or logged are older than the next one. *)
Definition countdownInv (m : Machine) : Prop :=
  (List.length (timers m) <= 1)%nat /\
  (timers m <> [] -> isCapturing (app m) = true) /\
  Forall (fun t => 1 <= count t <= 3 /\ (timerId t < nextTimerId m)%nat) (timers m) /\
  Forall (fun i => (i < nextTimerId m)%nat) (captures m).

(** [m'] has the timers, the log, the next timer name and the displayed
    count of [m], and [isCapturing] set. *)
Definition sameCountdown (m m' : Machine) : Prop :=
  timers m' = timers m /\
  captures m' = captures m /\
  nextTimerId m' = nextTimerId m /\
  countdown (app m') = countdown (app m) /\
  isCapturing (app m') = true.

Section Machine.

Variable drawMirrored : string -> Video -> list Z.
Variable toDataURL : Z -> Z -> list Z -> string.

Definition startCountdown (m : Machine) : Machine :=
  if isCapturing (app m) then m
  else
    let st := setCountdown (Some 3) (setIsCapturing true (app m)) in
    mkMachine st
              (timers m ++ [mkTimer (nextTimerId m) 3 (selectedFilter (app m))])
              (S (nextTimerId m))
              (captures m).

Definition clearInterval (tid : nat) (ts : list Timer) : list Timer :=
  List.filter (fun t => negb (Nat.eqb (timerId t) tid)) ts.

Definition setCount (tid : nat) (c : Z) (ts : list Timer) : list Timer :=
  map (fun t => if Nat.eqb (timerId t) tid
                then mkTimer (timerId t) c (closureFilter t) else t) ts.

(** The interval callback of timer [t]. When [takePhoto] throws, the
    callback ends there: [setIsCapturing(false)] is not reached. *)
Definition intervalCallback (t : Timer) (e : Capture.Env) (m : Machine) : Machine :=
  let c := count t - 1 in
  if Z.ltb 0 c then
    mkMachine (setCountdown (Some c) (app m))
              (setCount (timerId t) c (timers m))
              (nextTimerId m) (captures m)
  else
    let ts := clearInterval (timerId t) (setCount (timerId t) c (timers m)) in
    let st := setCountdown None (app m) in
    let log := captures m ++ [timerId t] in
    match takePhoto drawMirrored toDataURL e (closureFilter t) st with
    | Returned st' =>
        mkMachine (setIsCapturing false st') ts (nextTimerId m) log
    | Thrown _ =>
        mkMachine st ts (nextTimerId m) log
    end.

(** One event of the page. A timer that is not live does not fire. *)
Definition step (m : Machine) (ev : Event) : Machine :=
  match ev with
  | ClickShutter => startCountdown m
  | IntervalFires tid e =>
      match List.find (fun t => Nat.eqb (timerId t) tid) (timers m) with
      | Some t => intervalCallback t e m
      | None => m
      end
  | SelectFilter f =>
      mkMachine (setSelectedFilter f (app m)) (timers m) (nextTimerId m) (captures m)
  | ClickClear =>
      mkMachine (Caption.clearPhotos (app m)) (timers m) (nextTimerId m) (captures m)
  | ClickCaption =>
      match Caption.handleGenerateCaption_call (app m) with
      | Returned (st, _) => mkMachine st (timers m) (nextTimerId m) (captures m)
      | Thrown _ => m
      end
  | CaptionSettled caption =>
      mkMachine (Caption.handleGenerateCaption_resume caption (app m))
                (timers m) (nextTimerId m) (captures m)
  end.

Definition run (m : Machine) (evs : list Event) : Machine :=
  fold_left step evs m.

(** States some sequence of events leads to from the initial page. *)
Definition reachable (m : Machine) : Prop :=
  exists evs, m = run initialMachine evs.


End Machine.

End Countdown.

(* ===================================================================== *)
(** ** Composite exporter: downloadPhotoStrip *)
(* ===================================================================== *)

Module Exporter.

Definition cols : Z := 2.
Definition photoWidth : Z := 300.
Definition photoHeight : Z := 225.
Definition gap : Z := 20.
Definition padding : Z := 40.
Definition bottomLabelHeight : Z := 150.

(** [Math.ceil(photos.length / cols) || 2]: zero is falsy. *)
Definition rowsOf (n : nat) : Z :=
  let r := Qceiling (inject_Z (Z.of_nat n) / inject_Z cols) in
  if Z.eqb r 0 then 2 else r.

Definition contentWidth : Z := cols * photoWidth + (cols - 1) * gap.
Definition contentHeight (rows : Z) : Z := rows * photoHeight + (rows - 1) * gap.

Definition stripWidth : Z := contentWidth + padding * 2.
Definition stripHeight (n : nat) : Z :=
  contentHeight (rowsOf n) + padding * 2 + bottomLabelHeight.

(** The canvas calls the exporter makes, in order. The two stipple passes
    and the vignette paint over the canvas without moving anything; which
    dots they draw depends on [Math.random()] and is not recorded. *)
Inductive DrawOp : Type :=
  | FillRect (fillStyle : string) (x y w h : Z)
  | DrawImage (src : string) (x y w h : Z)
  | StrokeRect (strokeStyle : string) (lineWidth x y w h : Z)
  | FillText (font fillStyle text : string) (x y : Z)
  | StipplePass (fillStyle : string)
  | VignettePass.

(** What one export reads from the browser. [measureText font s] is
    [ctx.measureText(s).width] under [ctx.font = font]. *)
Record Env : Type := mkEnv {
  context2d : bool;
  dateStr : string;                    (* new Date().toLocaleDateString() *)
  measureText : string -> string -> Q;
  now : Z                              (* Date.now() *)
}.

(** The download the exporter triggers. *)
Record Download : Type := mkDownload {
  filename : string;
  canvasWidth : Z;
  canvasHeight : Z;
  ops : list DrawOp
}.

(** [photos.forEach((photo, index) => ...)] *)
Fixpoint drawPhotos (index : nat) (ps : list Photo) : list DrawOp :=
  match ps with
  | [] => []
  | photo :: rest =>
      let col := Z.of_nat index mod cols in
      let row := Z.of_nat index / cols in
      let x := padding + col * (photoWidth + gap) in
      let y := padding + row * (photoHeight + gap) in
      FillRect "rgba(0,0,0,0.1)" (x + 4) (y + 4) photoWidth photoHeight
      :: DrawImage (dataUrl photo) x y photoWidth photoHeight
      :: StrokeRect "#333" 1 x y photoWidth photoHeight
      :: drawPhotos (S index) rest
  end.

Definition dquote : string := String (ascii_of_nat 34) EmptyString.
Definition captionFont : string :=
  ("italic 24px " ++ dquote ++ "Courier New" ++ dquote ++ ", monospace")%string.
Definition dateFont : string :=
  ("30px " ++ dquote ++ "Courier New" ++ dquote ++ ", monospace")%string.

Section Wrap.

(** [ctx.measureText(s).width] under the caption font, the canvas width
    and the horizontal centre the text is drawn at. *)
Variable width_of : string -> Q.
Variable canvasW : Z.
Variable cx : Z.

(** The loop [for (n = 0; n < words.length; n++)] of the word wrap,
    entered at index [n] with the remaining words, the current [line]
    and the cursor [y]; the [fillText] after the loop closes it. *)
Fixpoint wrapLoop (words : list string) (n : nat) (line : string) (y : Z)
  : list DrawOp :=
  match words with
  | [] => [FillText captionFont "#555" line cx y]
  | w :: rest =>
      let testLine := (line ++ w ++ " ")%string in
      if Qlt_bool (inject_Z (canvasW - 60)) (width_of testLine)
         && Nat.ltb 0 n
      then
        FillText captionFont "#555" line cx y
        :: wrapLoop rest (S n) (w ++ " ")%string (y + 30)
      else wrapLoop rest (S n) testLine y
  end.

(** [if (generatedCaption) { ... }] *)
Definition drawCaption (caption : string) (h : Z) : list DrawOp :=
  if truthy caption
  then wrapLoop (split " " caption) 0 EmptyString (h - 60)
  else [].

End Wrap.

Definition downloadPhotoStrip (e : Env) (st : AppState) : option Download :=
  if negb (context2d e) then None
  else
    let w := stripWidth in
    let h := stripHeight (List.length (photos st)) in
    Some (mkDownload
            ("retro-booth-" ++ toString (now e) ++ ".png")%string
            w h
            ([FillRect "#fdfbf7" 0 0 w h; StipplePass "rgba(0,0,0,0.03)"]
             ++ drawPhotos 0 (photos st)
             ++ [FillText dateFont "#222" (dateStr e) (w / 2) (h - 100)]
             ++ drawCaption (measureText e captionFont) w (w / 2)
                            (generatedCaption st) h
             ++ [VignettePass; StipplePass "#000"])).

End Exporter.

(* ===================================================================== *)
(** ** The word wrap over the pieces of the caption *)
(* ===================================================================== *)

Module PieceWrap.

(** The text of a line holding the pieces [ws] of [caption.split(' ')]:
    each piece followed by one space, so the line ends in a space. *)
Definition lineText (ws : list string) : string :=
  fold_right (fun w acc => (w ++ " " ++ acc)%string) EmptyString ws.

Section Greedy.

Variable width_of : string -> Q.
Variable limit : Z.                 (* canvas width - 60 *)

(** The line [cur] with the piece [w] and its space added is wider than
    the limit. *)
Definition exceeds (cur : list string) (w : string) : bool :=
  Qlt_bool (inject_Z limit) (width_of (lineText (cur ++ [w]))).

(** The line holds a piece already (an empty piece counts). *)
Definition hasWord (cur : list string) : bool :=
  match cur with [] => false | _ => true end.

(** Greedy wrap over pieces: the committed lines (their pieces and the
    vertical position each is committed at). When the line with the next
    piece exceeds the limit and the line holds a piece, commit the line,
    move down 30 and start a new line with that piece; otherwise add the
    piece; commit the last line when the pieces are used up. *)
Fixpoint greedy (words : list string) (cur : list string) (y : Z)
  : list (list string * Z) :=
  match words with
  | [] => [(cur, y)]
  | w :: rest =>
      if exceeds cur w && hasWord cur
      then (cur, y) :: greedy rest [w] (y + 30)
      else greedy rest (cur ++ [w]) y
  end.

End Greedy.

End PieceWrap.

(* ===================================================================== *)
(** ** The word wrap and the row count as the specification words them *)
(* ===================================================================== *)

Module SpecModel.

(** A line of words: the words separated by single spaces. *)
Definition joined (ws : list string) : string := String.concat " " ws.

(** The line contains at least one word. *)
Definition containsWord (ws : list string) : bool :=
  existsb (fun w => negb (String.eqb w EmptyString)) ws.

Section Worded.

Variable width_of : string -> Q.
Variable limit : Z.                 (* canvas width - 60 *)

(** Adding the word [w] to the line [cur] would exceed the limit: the
    candidate line's rendered width is measured. *)
Definition exceeds (cur : list string) (w : string) : bool :=
  Qlt_bool (inject_Z limit) (width_of (joined (cur ++ [w]))).

(** The committed lines, each with the vertical position it is committed
    at: if adding the word would exceed the limit and the line already
    contains at least one word, the line is committed, the cursor
    advances by 30 and a new line starts with that word; after all words
    are consumed the final line is committed. *)
Fixpoint greedy (words : list string) (cur : list string) (y : Z)
  : list (string * Z) :=
  match words with
  | [] => [(joined cur, y)]
  | w :: rest =>
      if exceeds cur w && containsWord cur
      then (joined cur, y) :: greedy rest [w] (y + 30)
      else greedy rest (cur ++ [w]) y
  end.

End Worded.

(** Row count as the specification words it: ceil(N / 2), at least 2. *)
Definition rowsSpec (n : nat) : Z :=
  Z.max (Qceiling (inject_Z (Z.of_nat n) / 2)) 2.

End SpecModel.

(* ===================================================================== *)
(** ** Concrete inputs used to exercise the statements *)
(* ===================================================================== *)

Module Samples.

Definition sepia : FilterConfig :=
  mkFilter "sepia" "Sepia" "sepia" "sepia(80%) contrast(90%) brightness(110%)".

(** A 2x1 frame: a bright red-ish pixel and a dark one. *)
Definition video : Capture.Video :=
  Capture.mkVideo 2 1 [250; 100; 100; 255; 0; 3; 128; 255].

Definition canvas : Capture.Canvas := Capture.mkCanvas true.

(** A rasteriser that copies the frame and an encoder that spells the
    bytes out as letters. *)
Definition draw (css : string) (v : Capture.Video) : list Z := Capture.frame v.

Definition encode (w h : Z) (px : list Z) : string :=
  ("data:image/png;base64," ++
   string_of_list_ascii
     (map (fun d => ascii_of_nat (65 + Z.to_nat d mod 26)) px))%string.

(** [Math.random()] returns 0.95 first (noise +9), then 0.1 (noise -8). *)
Definition rnd (n : nat) : Q :=
  match n with O => 19 # 20 | _ => 1 # 10 end.

Definition env : Capture.Env :=
  Capture.mkEnv (Some video) (Some canvas) rnd 1700000000000 1700000000001.

Definition envNoVideo : Capture.Env :=
  Capture.mkEnv None (Some canvas) rnd 1700000000000 1700000000001.

(** A page with two photos and no caption. *)
Definition photoA : Photo :=
  mkPhoto "1700000000000" "data:image/png;base64,AAAA" 1700000000000 "sepia".
Definition photoB : Photo :=
  mkPhoto "1700000004000" "data:image/png;base64,BBBB" 1700000004000 "normal".
Definition twoPhotos : AppState :=
  mkApp [photoA; photoB] FILTERS_0 None false EmptyString false.

(** No API key configured; a service that would answer if it were asked. *)
Definition geminiNoKey : Gemini.Env :=
  Gemini.mkEnv None
    (fun _ => Returned (Gemini.mkResponse (Some "Totally rad.")%string)).

(** A key is configured and the service rejects every request. *)
Definition geminiRejects : Gemini.Env :=
  Gemini.mkEnv (Some "k3y"%string) (fun _ => Thrown "503"%string).

(** A browser whose caption font is 10 units wide per character. *)
Definition monoWidth (s : string) : Q := inject_Z (10 * Z.of_nat (String.length s)).

Definition exportEnv : Exporter.Env :=
  Exporter.mkEnv true "11/3/2026" (fun _ => monoWidth) 1700000009000.

Definition fox : string := "The quick brown fox jumps over the lazy dog".

End Samples.

(* ===================================================================== *)
(** ** Camera start-up: the mount effect of App *)
(* ===================================================================== *)

Module Camera.

(** The two constraint objects passed to [getUserMedia]: the QVGA, 24 fps,
    front-camera one, and [{ video: true, audio: false }]. *)
Inductive Constraints : Type :=
| Preferred
| Basic.

(** A media stream: its tracks. *)
Record MediaStream : Type := mkStream {
  getTracks : list nat
}.

(** [navigator.mediaDevices.getUserMedia] (a rejection is [Thrown]) and
    whether [videoRef.current] is set when the stream arrives. *)
Record Env : Type := mkEnv {
  getUserMedia : Constraints -> completion MediaStream;
  videoMounted : bool
}.

(** What [startCamera] has done when it settles. *)
Record Outcome : Type := mkOutcome {
  stream : option MediaStream;        (* setStream(mediaStream) *)
  srcObject : option MediaStream;     (* videoRef.current.srcObject *)
  requested : list Constraints;       (* getUserMedia calls, in order *)
  warned : bool;                      (* console.warn *)
  alerted : bool                      (* alert("Could not access camera...") *)
}.

Definition acquired (e : Env) (ms : MediaStream) (calls : list Constraints)
    (w : bool) : Outcome :=
  mkOutcome (Some ms) (if videoMounted e then Some ms else None) calls w false.

Definition startCamera (e : Env) : Outcome :=
  match getUserMedia e Preferred with
  | Returned ms => acquired e ms [Preferred] false
  | Thrown _ =>
      match getUserMedia e Basic with
      | Returned ms => acquired e ms [Preferred; Basic] true
      | Thrown _ => mkOutcome None None [Preferred; Basic] true true
      end
  end.

(** The cleanup closure [() => { if (stream) stream.getTracks().forEach(
    track => track.stop()) }] built in a render whose [stream] cell holds
    [streamAtRender]: the tracks it stops. *)
Definition cleanup (streamAtRender : option MediaStream) : list nat :=
  match streamAtRender with
  | Some ms => getTracks ms
  | None => []
  end.

(** [useState<MediaStream | null>(null)] *)
Definition initialStream : option MediaStream := None.

(** The effect has the dependency list [[]]: it runs in the first render
    only, so the cleanup React keeps is the one built there. The result is
    what [startCamera] did and the tracks stopped when App unmounts. *)
Definition mountThenUnmount (e : Env) : Outcome * list nat :=
  (startCamera e, cleanup initialStream).

End Camera.

(* ===================================================================== *)
(** ** What App renders from its state *)
(* ===================================================================== *)

Module View.

(** [FILTERS.find(f => f.name === selectedFilter.name)], whose [class] and
    [cssFilter] style the live preview. *)
Definition previewFilter (st : AppState) : option FilterConfig :=
  List.find (fun f => String.eqb (name f) (name (selectedFilter st))) FILTERS.

(** The filter buttons drawn highlighted:
    [selectedFilter.name === filter.name]. *)
Definition highlighted (st : AppState) : list FilterConfig :=
  List.filter (fun f => String.eqb (name (selectedFilter st)) (name f)) FILTERS.

(** The caption area below the photo grid. *)
Inductive CaptionArea : Type :=
| NoArea                         (* photos.length > 0 is false *)
| Consulting                     (* isGeneratingCaption *)
| Quoted (caption : string)      (* generatedCaption is truthy *)
| GenerateButton.                (* onClick = handleGenerateCaption *)

Definition captionArea (st : AppState) : CaptionArea :=
  if Nat.ltb 0 (List.length (photos st)) then
    if isGeneratingCaption st then Consulting
    else if truthy (generatedCaption st) then Quoted (generatedCaption st)
    else GenerateButton
  else NoArea.

(** The save and reset buttons are rendered: [photos.length > 0]. *)
Definition actionButtons (st : AppState) : bool :=
  Nat.ltb 0 (List.length (photos st)).

(** The countdown overlay: [countdown !== null && <span>{countdown}</span>]. *)
Definition overlay (st : AppState) : option Z := countdown st.

(** The shutter button's [disabled] attribute. *)
Definition shutterDisabled (st : AppState) : bool := isCapturing st.

End View.

(* ===================================================================== *)
(** ** Vocabulary for the statements that follow *)
(* ===================================================================== *)

Module Terms.

(** Rounding to the nearest integer, ties to even: the store into the
    clamped array for a number strictly between 0 and 255. *)
Definition nearest (x : Q) : Z :=
  let f := Qfloor x in
  match Qcompare x (inject_Z f + (1 # 2)) with
  | Lt => f
  | Gt => f + 1
  | Eq => if Z.even f then f else f + 1
  end.

(** The character [c] occurs in [s]. *)
Fixpoint occurs (c : ascii) (s : string) : bool :=
  match s with
  | EmptyString => false
  | String a rest => Ascii.eqb a c || occurs c rest
  end.

(** The texts of the [fillText] calls drawn in the caption font, joined
    end to end in drawing order. *)
Fixpoint captionText (ops : list Exporter.DrawOp) : string :=
  match ops with
  | [] => EmptyString
  | Exporter.FillText font _ text _ _ :: rest =>
      if String.eqb font Exporter.captionFont
      then (text ++ captionText rest)%string
      else captionText rest
  | _ :: rest => captionText rest
  end.

(** The [fillText] calls made in the caption font, in drawing order:
    the text and the vertical position of each. *)
Fixpoint captionLines (ops : list Exporter.DrawOp) : list (string * Z) :=
  match ops with
  | [] => []
  | Exporter.FillText font _ text _ y :: rest =>
      if String.eqb font Exporter.captionFont
      then (text, y) :: captionLines rest
      else captionLines rest
  | _ :: rest => captionLines rest
  end.

(** The export of [st] in the browser [e] wraps the caption as the
    specification words it: the caption lines it draws are those of
    [SpecModel.greedy] for the measured widths, the limit canvas width -
    60 and the first line at canvas height - 60. *)
Definition wrapsAsWorded (e : Exporter.Env) (st : AppState) : Prop :=
  forall d,
    Exporter.downloadPhotoStrip e st = Some d ->
    captionLines (Exporter.ops d)
    = SpecModel.greedy (Exporter.measureText e Exporter.captionFont)
        (Exporter.canvasWidth d - 60)
        (split " " (generatedCaption st)) []
        (Exporter.canvasHeight d - 60).

(** The event is neither the reset button nor the arrival of a caption. *)
Definition leavesRequestAlone (ev : Countdown.Event) : bool :=
  match ev with
  | Countdown.ClickClear => false
  | Countdown.CaptionSettled _ => false
  | _ => true
  end.

(** The sources of the [drawImage] calls, in drawing order. *)
Fixpoint imagesDrawn (ops : list Exporter.DrawOp) : list string :=
  match ops with
  | [] => []
  | Exporter.DrawImage src _ _ _ _ :: rest => src :: imagesDrawn rest
  | _ :: rest => imagesDrawn rest
  end.

(** Cell of the photo at [index]: its left and top edges. *)
Definition cellX (index : nat) : Z :=
  Exporter.padding
  + (Z.of_nat index mod Exporter.cols) * (Exporter.photoWidth + Exporter.gap).
Definition cellY (index : nat) : Z :=
  Exporter.padding
  + (Z.of_nat index / Exporter.cols) * (Exporter.photoHeight + Exporter.gap).

(** A line of words is within the width limit, or holds at most one
    word. *)
Definition fitsOrSingle (width_of : string -> Q) (limit : Z)
    (cur : list string) : Prop :=
  (width_of (PieceWrap.lineText cur) <= inject_Z limit)%Q \/
  (List.length cur <= 1)%nat.

(** The overlay shows the count of the live timer, and nothing when no
    timer is live. *)
Definition displayMatches (m : Countdown.Machine) : Prop :=
  match Countdown.timers m with
  | [] => countdown (Countdown.app m) = None
  | [t] => countdown (Countdown.app m) = Some (Countdown.count t)
  | _ => False
  end.

End Terms.

(** Further concrete inputs. *)
Module MoreSamples.

(** A video element that never received a stream. *)
Definition blankVideo : Capture.Video := Capture.mkVideo 0 0 [].

Definition blankEnv : Capture.Env :=
  Capture.mkEnv (Some blankVideo) (Some Samples.canvas) Samples.rnd
                1700000020000 1700000020000.

(** A canvas that gives no 2d context. *)
Definition envNoContext : Capture.Env :=
  Capture.mkEnv (Some Samples.video) (Some (Capture.mkCanvas false)) Samples.rnd
                1700000021000 1700000021000.

(** A camera whose preferred configuration is refused. *)
Definition cameraFallback : Camera.Env :=
  Camera.mkEnv
    (fun c => match c with
              | Camera.Preferred => Thrown "OverconstrainedError"%string
              | Camera.Basic => Returned (Camera.mkStream [7%nat])
              end)
    true.

(** A service that answers with a caption, and one that answers with no
    text. *)
Definition geminiAnswers : Gemini.Env :=
  Gemini.mkEnv (Some "k3y"%string)
    (fun _ => Returned (Gemini.mkResponse (Some "Totally rad."%string))).

Definition geminiSilent : Gemini.Env :=
  Gemini.mkEnv (Some "k3y"%string) (fun _ => Returned (Gemini.mkResponse None)).

(** A browser whose caption font is 40 units wide per character: sixteen
    characters fill the 640 units of an export line. *)
Definition wideWidth (s : string) : Q := inject_Z (40 * Z.of_nat (String.length s)).

Definition wideEnv : Exporter.Env :=
  Exporter.mkEnv true "11/3/2026" (fun _ => wideWidth) 1700000009000.

Definition captioned (caption : string) : AppState :=
  mkApp [Samples.photoA; Samples.photoB] FILTERS_0 None false caption false.

End MoreSamples.

(* ===================================================================== *)
(** * Properties *)
(* ===================================================================== *)

(** ** Rounding to a double *)

Module DoubleFacts.

Import Double.

Lemma Qlt_of_not_Qle_bool (x y : Q) : Qle_bool x y = false -> (y < x)%Q.
Proof.
  intros H. apply Qnot_le_lt. intros Hle.
  apply Qle_bool_iff in Hle. congruence.
Qed.

#[export] Instance rne_comp : Proper (Qeq ==> eq) rne.
Proof.
  intros x y E. unfold rne.
  assert (Hf : Qfloor x = Qfloor y) by (now rewrite E).
  rewrite Hf.
  assert (Hc : Qcompare x (inject_Z (Qfloor y) + (1 # 2))
               = Qcompare y (inject_Z (Qfloor y) + (1 # 2))) by (now rewrite E).
  now rewrite Hc.
Qed.

Lemma rne_range (x : Q) : Qfloor x <= rne x <= Qfloor x + 1.
Proof.
  unfold rne. destruct (Qcompare _ _); [destruct (Z.even _)| |]; lia.
Qed.

Lemma Qcompare_lt (x y : Q) : (x < y)%Q -> Qcompare x y = Lt.
Proof. intros H. now apply Qlt_alt. Qed.

Lemma rne_int (k : Z) : rne (inject_Z k) = k.
Proof.
  unfold rne. rewrite Qfloor_Z, Qcompare_lt; [reflexivity | lra].
Qed.

Lemma rne_monotone (x y : Q) : (x <= y)%Q -> rne x <= rne y.
Proof.
  intros Hxy.
  pose proof (Qfloor_resp_le x y Hxy) as Hf.
  pose proof (rne_range x) as Hx. pose proof (rne_range y) as Hy.
  destruct (Z.eq_dec (Qfloor x) (Qfloor y)) as [E|E]; [|lia].
  unfold rne in *. rewrite E in *.
  destruct (Qcompare_spec x (inject_Z (Qfloor y) + (1 # 2))) as [Hx1|Hx1|Hx1];
    destruct (Qcompare_spec y (inject_Z (Qfloor y) + (1 # 2))) as [Hy1|Hy1|Hy1];
    try destruct (Z.even _); try lia; exfalso; lra.
Qed.

Lemma pow2_pos (s : Z) : 0 <= s -> 0 < 2 ^ s.
Proof. intros. apply Z.pow_pos_nonneg; lia. Qed.

Lemma inject_pos (c : Z) : 0 < c -> (0 < inject_Z c)%Q.
Proof. intros H. change 0%Q with (inject_Z 0). now rewrite <- Zlt_Qlt. Qed.

Lemma shift_nonneg (n : Q) : 0 <= shift n.
Proof. unfold shift. lia. Qed.

Lemma shift_monotone (n1 n2 : Q) : (n1 <= n2)%Q -> shift n1 <= shift n2.
Proof.
  intros H. unfold shift.
  pose proof (Z.log2_le_mono _ _ (Qfloor_resp_le _ _ H)). lia.
Qed.

(** Below the top of its binade. *)
Lemma below_binade (n : Q) : (n < inject_Z (2 ^ (shift n + 53)))%Q.
Proof.
  eapply Qlt_le_trans; [apply Qlt_floor|].
  rewrite <- Zle_Qle.
  pose proof (shift_nonneg n).
  destruct (Z_lt_le_dec 0 (Qfloor n)) as [Hp|Hp].
  - pose proof (Z.log2_spec _ Hp) as [_ Hs].
    assert (Z.log2 (Qfloor n) + 1 <= shift n + 53) by (unfold shift; lia).
    assert (2 ^ Z.succ (Z.log2 (Qfloor n)) <= 2 ^ (shift n + 53)).
    { apply Z.pow_le_mono_r; lia. }
    lia.
  - pose proof (pow2_pos (shift n + 53)). lia.
Qed.

(** At or above the bottom of its binade, when the binade is not the lowest. *)
Lemma above_binade (n : Q) : 0 < shift n -> (inject_Z (2 ^ (shift n + 52)) <= n)%Q.
Proof.
  intros Hs. eapply Qle_trans; [|apply Qfloor_le].
  rewrite <- Zle_Qle. unfold shift in *.
  assert (Hl : 52 < Z.log2 (Qfloor n)) by lia.
  assert (Hp : 0 < Qfloor n).
  { destruct (Z_lt_le_dec 0 (Qfloor n)); [assumption|].
    rewrite Z.log2_nonpos in Hl by assumption. lia. }
  pose proof (Z.log2_spec _ Hp) as [Hlo _].
  replace (Z.max (Z.log2 (Qfloor n) - 52) 0 + 52) with (Z.log2 (Qfloor n)) by lia.
  exact Hlo.
Qed.

Lemma div_pow_le (n : Q) (k s : Z) :
  0 <= s -> (n <= inject_Z (k * 2 ^ s))%Q -> (n / inject_Z (2 ^ s) <= inject_Z k)%Q.
Proof.
  intros Hs H. apply Qle_shift_div_r; [apply inject_pos, pow2_pos; lia|].
  now rewrite <- inject_Z_mult.
Qed.

Lemma div_pow_ge (n : Q) (k s : Z) :
  0 <= s -> (inject_Z (k * 2 ^ s) <= n)%Q -> (inject_Z k <= n / inject_Z (2 ^ s))%Q.
Proof.
  intros Hs H. apply Qle_shift_div_l; [apply inject_pos, pow2_pos; lia|].
  now rewrite <- inject_Z_mult.
Qed.

Lemma roundScaled_le (n : Q) (k : Z) :
  (n <= inject_Z (k * 2 ^ shift n))%Q -> roundScaled n <= k * 2 ^ shift n.
Proof.
  intros H. unfold roundScaled. cbv zeta.
  pose proof (shift_nonneg n) as Hs. pose proof (pow2_pos _ Hs).
  apply Z.mul_le_mono_nonneg_r; [lia|].
  rewrite <- (rne_int k). apply rne_monotone. now apply div_pow_le.
Qed.

Lemma roundScaled_ge (n : Q) (k : Z) :
  (inject_Z (k * 2 ^ shift n) <= n)%Q -> k * 2 ^ shift n <= roundScaled n.
Proof.
  intros H. unfold roundScaled. cbv zeta.
  pose proof (shift_nonneg n) as Hs. pose proof (pow2_pos _ Hs).
  apply Z.mul_le_mono_nonneg_r; [lia|].
  rewrite <- (rne_int k) at 1. apply rne_monotone. now apply div_pow_ge.
Qed.

Lemma roundScaled_monotone (n1 n2 : Q) :
  (n1 <= n2)%Q -> roundScaled n1 <= roundScaled n2.
Proof.
  intros H.
  pose proof (shift_monotone _ _ H) as Hs.
  pose proof (shift_nonneg n1) as H1. pose proof (shift_nonneg n2) as H2.
  destruct (Z.eq_dec (shift n1) (shift n2)) as [E|E].
  - unfold roundScaled. cbv zeta. rewrite E.
    apply Z.mul_le_mono_nonneg_r; [pose proof (pow2_pos _ H2); lia|].
    apply rne_monotone.
    apply Qmult_le_compat_r; [exact H|].
    apply Qinv_le_0_compat, Qlt_le_weak, inject_pos, pow2_pos; lia.
  - (* n1 lies in a lower binade: the boundary 2^(shift n2 + 52) separates *)
    apply Z.le_trans with (2 ^ (shift n2 + 52)).
    + set (k := 2 ^ (shift n2 + 52 - shift n1)).
      assert (Hk : k * 2 ^ shift n1 = 2 ^ (shift n2 + 52)).
      { subst k. rewrite <- Z.pow_add_r by lia. f_equal. lia. }
      rewrite <- Hk. apply roundScaled_le. rewrite Hk.
      apply Qlt_le_weak. eapply Qlt_le_trans; [apply below_binade|].
      rewrite <- Zle_Qle. apply Z.pow_le_mono_r; lia.
    + assert (Hk : 2 ^ 52 * 2 ^ shift n2 = 2 ^ (shift n2 + 52)).
      { rewrite <- Z.pow_add_r by lia. f_equal. lia. }
      rewrite <- Hk. apply roundScaled_ge. rewrite Hk.
      apply above_binade. lia.
Qed.

#[export] Instance roundScaled_comp : Proper (Qeq ==> eq) roundScaled.
Proof.
  intros x y E. unfold roundScaled. cbv zeta.
  assert (Hs : shift x = shift y).
  { unfold shift. assert (Hf : Qfloor x = Qfloor y) by (now rewrite E).
    now rewrite Hf. }
  rewrite Hs. f_equal. apply rne_comp. now rewrite E.
Qed.

(** An integer below 2^53 times a power of two is a point of the grid. *)
Lemma roundScaled_exact (m t : Z) :
  0 <= m < 2 ^ 53 -> 0 <= t -> roundScaled (inject_Z (m * 2 ^ t)) = m * 2 ^ t.
Proof.
  intros Hm Ht.
  set (n := inject_Z (m * 2 ^ t)).
  assert (Hs : shift n <= t).
  { unfold shift, n. rewrite Qfloor_Z.
    destruct (Z.eq_dec m 0) as [->|Hz]; [rewrite Z.mul_0_l; cbn; lia|].
    rewrite Z.log2_mul_pow2 by lia.
    assert (Z.log2 m < 53) by (apply Z.log2_lt_pow2; lia). lia. }
  pose proof (shift_nonneg n) as H0.
  assert (Hk : m * 2 ^ t = (m * 2 ^ (t - shift n)) * 2 ^ shift n).
  { rewrite <- Z.mul_assoc, <- Z.pow_add_r by lia. do 2 f_equal. lia. }
  apply Z.le_antisymm.
  - rewrite Hk. apply roundScaled_le. rewrite <- Hk. apply Qle_refl.
  - rewrite Hk. apply roundScaled_ge. rewrite <- Hk. apply Qle_refl.
Qed.

Lemma scale_pos : (0 < inject_Z scale)%Q.
Proof. apply inject_pos. unfold scale. apply pow2_pos. lia. Qed.

#[export] Instance roundPos_comp : Proper (Qeq ==> Qeq) roundPos.
Proof.
  intros x y E. unfold roundPos.
  assert (H : roundScaled (x * inject_Z scale) = roundScaled (y * inject_Z scale)).
  { apply roundScaled_comp. now rewrite E. }
  rewrite H. reflexivity.
Qed.

Lemma roundPos_monotone (x y : Q) : (x <= y)%Q -> (roundPos x <= roundPos y)%Q.
Proof.
  intros H. unfold roundPos.
  apply Qmult_le_compat_r.
  - rewrite <- Zle_Qle. apply roundScaled_monotone.
    apply Qmult_le_compat_r; [exact H | apply Qlt_le_weak, scale_pos].
  - apply Qinv_le_0_compat, Qlt_le_weak, scale_pos.
Qed.

Lemma roundPos_zero : (roundPos 0 == 0)%Q.
Proof. vm_compute. reflexivity. Qed.

(** [m / 2^t] with [m < 2^53] and [t <= 1074] is a double. *)
Lemma roundPos_exact (m t : Z) :
  0 <= m < 2 ^ 53 -> 0 <= t <= 1074 ->
  (roundPos (inject_Z m / inject_Z (2 ^ t)) == inject_Z m / inject_Z (2 ^ t))%Q.
Proof.
  intros Hm Ht. unfold roundPos.
  assert (Hs : scale = 2 ^ (1074 - t) * 2 ^ t).
  { unfold scale. rewrite <- Z.pow_add_r by lia. f_equal. lia. }
  pose proof (inject_pos _ (pow2_pos t ltac:(lia))) as Hp.
  assert (E : (inject_Z m / inject_Z (2 ^ t) * inject_Z scale
               == inject_Z (m * 2 ^ (1074 - t)))%Q).
  { rewrite Hs, !inject_Z_mult. field. lra. }
  rewrite E, roundScaled_exact by lia.
  rewrite Hs, !inject_Z_mult. field.
  pose proof (inject_pos _ (pow2_pos (1074 - t) ltac:(lia))). lra.
Qed.

#[export] Instance round_comp : Proper (Qeq ==> Qeq) round.
Proof.
  intros x y E. unfold round. rewrite E. destruct (Qle_bool 0 y); now rewrite E.
Qed.

Lemma roundPos_nonneg (x : Q) : (0 <= x)%Q -> (0 <= roundPos x)%Q.
Proof.
  intros H. rewrite <- roundPos_zero. now apply roundPos_monotone.
Qed.

(** Rounding to a double is monotone. *)
Lemma round_monotone (x y : Q) : (x <= y)%Q -> (round x <= round y)%Q.
Proof.
  intros H. unfold round.
  destruct (Qle_bool 0 x) eqn:Hx; destruct (Qle_bool 0 y) eqn:Hy.
  - now apply roundPos_monotone.
  - apply Qle_bool_iff in Hx. apply Qlt_of_not_Qle_bool in Hy. exfalso. lra.
  - apply Qlt_of_not_Qle_bool in Hx. apply Qle_bool_iff in Hy.
    pose proof (roundPos_nonneg (- x) ltac:(lra)).
    pose proof (roundPos_nonneg y Hy). lra.
  - assert (H' : (- y <= - x)%Q) by lra.
    apply roundPos_monotone in H'. lra.
Qed.


(** Half-integers of small magnitude are doubles. *)
Lemma round_half (k : Z) :
  0 <= k < 2 ^ 53 -> (round (inject_Z k / 2) == inject_Z k / 2)%Q.
Proof.
  intros Hk. unfold round.
  assert (Hk0 : (0 <= inject_Z k)%Q)
    by (change 0%Q with (inject_Z 0); rewrite <- Zle_Qle; lia).
  assert (H0 : (0 <= inject_Z k / 2)%Q) by (apply Qle_shift_div_l; lra).
  apply Qle_bool_iff in H0. rewrite H0.
  exact (roundPos_exact k 1 Hk ltac:(lia)).
Qed.

(** A number between two doubles rounds between them. *)
Lemma round_between (a b x : Q) :
  (round a == a)%Q -> (round b == b)%Q -> (a <= x)%Q -> (x <= b)%Q ->
  (a <= round x)%Q /\ (round x <= b)%Q.
Proof.
  intros Ha Hb Hax Hxb. split.
  - rewrite <- Ha. now apply round_monotone.
  - rewrite <- Hb. now apply round_monotone.
Qed.


Lemma round_opp (x : Q) : (round (- x) == - round x)%Q.
Proof.
  unfold round.
  destruct (Qle_bool 0 x) eqn:Hx; destruct (Qle_bool 0 (- x)) eqn:Hn.
  - apply Qle_bool_iff in Hx, Hn.
    assert (E : (x == 0)%Q) by lra.
    assert (E' : (- x == 0)%Q) by lra.
    rewrite (roundPos_comp _ _ E), (roundPos_comp _ _ E'), roundPos_zero. lra.
  - assert (E : (- - x == x)%Q) by ring.
    now rewrite (roundPos_comp _ _ E).
  - ring.
  - apply Qlt_of_not_Qle_bool in Hx, Hn. exfalso. lra.
Qed.

(** [m / 2^t] with [|m| < 2^53] and [t <= 1074] is a double. *)
Lemma round_dyadic (m t : Z) :
  - 2 ^ 53 < m < 2 ^ 53 -> 0 <= t <= 1074 ->
  (round (inject_Z m / inject_Z (2 ^ t)) == inject_Z m / inject_Z (2 ^ t))%Q.
Proof.
  intros Hm Ht.
  pose proof (inject_pos _ (pow2_pos t ltac:(lia))) as Hp.
  assert (Hpos : forall k, 0 <= k < 2 ^ 53 ->
            (round (inject_Z k / inject_Z (2 ^ t)) == inject_Z k / inject_Z (2 ^ t))%Q).
  { intros k Hk. unfold round.
    assert (H0 : (0 <= inject_Z k / inject_Z (2 ^ t))%Q).
    { apply Qle_shift_div_l; [exact Hp|].
      assert (inject_Z 0 <= inject_Z k)%Q by (rewrite <- Zle_Qle; lia).
      change (inject_Z 0) with 0%Q in *. lra. }
    apply Qle_bool_iff in H0. rewrite H0. now apply roundPos_exact. }
  destruct (Z_le_gt_dec 0 m) as [H0|H0]; [apply Hpos; lia|].
  assert (E : (inject_Z m / inject_Z (2 ^ t)
               == - (inject_Z (- m) / inject_Z (2 ^ t)))%Q).
  { rewrite inject_Z_opp. field. lra. }
  rewrite (round_comp _ _ E). rewrite round_opp. rewrite (Hpos (- m)) by lia.
  symmetry. exact E.
Qed.

End DoubleFacts.

(** ** Storing into the clamped pixel array *)

Module ClampFacts.

Lemma Qle_bool_false (x y : Q) : Qle_bool x y = false -> (y < x)%Q.
Proof.
  intros H. apply Qnot_le_lt. intros Hle.
  apply Qle_bool_iff in Hle. congruence.
Qed.

Lemma floor_between (x : Q) (lo hi : Z) :
  (inject_Z lo <= x)%Q -> (x < inject_Z hi)%Q ->
  lo <= Qfloor x <= hi - 1.
Proof.
  intros Hlo Hhi. split.
  - rewrite <- (Qfloor_Z lo). now apply Qfloor_resp_le.
  - assert (Hf : (inject_Z (Qfloor x) < inject_Z hi)%Q).
    { eapply Qle_lt_trans; [apply Qfloor_le | exact Hhi]. }
    rewrite <- Zlt_Qlt in Hf. lia.
Qed.

(** A stored value is a byte. *)
Lemma ToUint8Clamp_byte (x : Q) : 0 <= ToUint8Clamp x <= 255.
Proof.
  unfold ToUint8Clamp.
  destruct (Qle_bool x 0) eqn:H0; [lia|].
  destruct (Qle_bool 255 x) eqn:H255; [lia|].
  apply Qle_bool_false in H0. apply Qle_bool_false in H255.
  assert (Hf : 0 <= Qfloor x <= 255 - 1).
  { apply floor_between; [apply Qlt_le_weak; exact H0 | exact H255]. }
  destruct (Qcompare _ _); [destruct (Z.even _)| |]; lia.
Qed.


Lemma inject_Z_minus_10 (d : Z) : (inject_Z (d - 10) == inject_Z d - 10)%Q.
Proof.
  unfold Z.sub. rewrite inject_Z_plus, inject_Z_opp.
  change (inject_Z 10) with 10%Q. ring.
Qed.

Lemma inject_Z_plus_10 (d : Z) : (inject_Z (d + 10) == inject_Z d + 10)%Q.
Proof. rewrite inject_Z_plus. change (inject_Z 10) with 10%Q. ring. Qed.



(** Storing a number within 10 of a byte moves the byte by at most 10. *)
Lemma store_within_10 (d : Z) (x : Q) :
  0 <= d <= 255 -> (inject_Z d - 10 <= x)%Q -> (x <= inject_Z d + 10)%Q ->
  d - 10 <= ToUint8Clamp x <= d + 10.
Proof.
  intros Hd Hlo Hhi.
  unfold ToUint8Clamp.
  destruct (Qle_bool x 0) eqn:H0.
  - apply Qle_bool_iff in H0.
    assert (Hq : (inject_Z d <= inject_Z 10)%Q)
      by (change (inject_Z 10) with 10%Q; lra).
    rewrite <- Zle_Qle in Hq. lia.
  - destruct (Qle_bool 255 x) eqn:H255.
    + apply Qle_bool_iff in H255.
      assert (Hq : (inject_Z 245 <= inject_Z d)%Q)
        by (change (inject_Z 245) with 245%Q; lra).
      rewrite <- Zle_Qle in Hq. lia.
    + change (d - 10 <= Double.rne x <= d + 10).
      rewrite <- (DoubleFacts.rne_int (d - 10)), <- (DoubleFacts.rne_int (d + 10)).
      split; apply DoubleFacts.rne_monotone.
      * rewrite inject_Z_minus_10. exact Hlo.
      * rewrite inject_Z_plus_10. exact Hhi.
Qed.

End ClampFacts.

(** ** The noise loop *)

Module NoiseFacts.

Import Capture.

(** Induction on a list four elements at a time, as the loop walks it. *)
Lemma list_ind4 {A : Type} (P : list A -> Prop) :
  P [] -> (forall a, P [a]) -> (forall a b, P [a; b]) ->
  (forall a b c, P [a; b; c]) ->
  (forall a b c d l, P l -> P (a :: b :: c :: d :: l)) ->
  forall l, P l.
Proof.
  intros H0 H1 H2 H3 H4.
  fix IH 1.
  intros [|a [|b [|c [|d l]]]];
    [exact H0 | apply H1 | apply H2 | apply H3 | apply H4, IH].
Qed.

Lemma noiseLoop_length (rnd : nat -> Q) (data : list Z) :
  forall k, List.length (noiseLoop rnd k data) = List.length data.
Proof.
  induction data as [| | | |a b c d l IH] using list_ind4; intros k;
    try reflexivity.
  cbn [noiseLoop List.length]. now rewrite IH.
Qed.

Lemma noiseLoop_nth (rnd : nat -> Q) (data : list Z) :
  forall k i d,
    nth_error data i = Some d ->
    nth_error (noiseLoop rnd k data) i = Some (storedAt rnd k i d).
Proof.
  induction data as [|a|a b|a b c|a b c e l IH] using list_ind4;
    intros k i d H.
  - destruct i; discriminate.
  - destruct i as [|[|i]]; try discriminate.
    injection H as <-. unfold storedAt. cbn. now rewrite Nat.add_0_r.
  - destruct i as [|[|[|i]]]; try discriminate;
      injection H as <-; unfold storedAt; cbn; now rewrite Nat.add_0_r.
  - destruct i as [|[|[|[|i]]]]; try discriminate;
      injection H as <-; unfold storedAt; cbn; now rewrite Nat.add_0_r.
  - destruct i as [|[|[|[|i]]]].
    + injection H as <-. unfold storedAt. cbn. now rewrite Nat.add_0_r.
    + injection H as <-. unfold storedAt. cbn. now rewrite Nat.add_0_r.
    + injection H as <-. unfold storedAt. cbn. now rewrite Nat.add_0_r.
    + injection H as <-. reflexivity.
    + cbn [noiseLoop nth_error] in *.
      rewrite (IH (S k) i d H). f_equal. unfold storedAt.
      replace (S (S (S (S i)))) with (i + 1 * 4)%nat by lia.
      rewrite Nat.Div0.mod_add, Nat.div_add by lia.
      now replace (k + (i / 4 + 1))%nat with (S k + i / 4)%nat by lia.
Qed.

End NoiseFacts.

(** ** Capture pipeline *)

Section CaptureProperties.

Import Capture.

Variable drawMirrored : string -> Video -> list Z.
Variable toDataURL : Z -> Z -> list Z -> string.

Let takePhoto := Capture.takePhoto drawMirrored toDataURL.
Let capturedPixels := Capture.capturedPixels drawMirrored.

Lemma getImageData_positive (w h : Z) (px : list Z) :
  0 < w -> 0 < h -> getImageData w h px = Returned px.
Proof.
  intros Hw Hh. unfold getImageData.
  destruct (Z.eqb_spec w 0); [lia|].
  destruct (Z.eqb_spec h 0); [lia|]. reflexivity.
Qed.

Lemma capturedPixels_returns (e : Env) (f : FilterConfig) (v : Video) :
  0 < videoWidth v -> 0 < videoHeight v ->
  exists px, capturedPixels e f v = Returned px.
Proof.
  intros Hw Hh. unfold capturedPixels, Capture.capturedPixels.
  destruct (negb _); [|eauto].
  rewrite getImageData_positive by assumption. eauto.
Qed.

(** C1. With a valid frame source, one call of takePhoto returns
    normally and appends exactly one photo at the end of the collection:
    the earlier photos are the same, in the same order, the length grows
    by one, the new photo carries the filter's name, and the selected
    filter, the caption and the other state cells are as before. *)
Theorem takePhoto_appends_exactly_one (e : Env) (f : FilterConfig) (st : AppState) :
  validFrameSource e ->
  exists st' p,
    takePhoto e f st = Returned st' /\
    photos st' = photos st ++ [p] /\
    List.length (photos st') = S (List.length (photos st)) /\
    firstn (List.length (photos st)) (photos st') = photos st /\
    filter p = name f /\
    selectedFilter st' = selectedFilter st /\
    generatedCaption st' = generatedCaption st /\
    countdown st' = countdown st /\
    isCapturing st' = isCapturing st /\
    isGeneratingCaption st' = isGeneratingCaption st.
Proof.
  intros (video & canvas & Hv & Hc & Hctx & Hw & Hh).
  destruct (capturedPixels_returns e f video Hw Hh) as [px Hpx].
  exists (setPhotos (fun prev => prev ++ [newPhoto toDataURL e f video px]) st),
         (newPhoto toDataURL e f video px).
  split.
  - unfold takePhoto, Capture.takePhoto. rewrite Hv, Hc, Hctx. cbn [negb].
    fold capturedPixels. now rewrite Hpx.
  - cbn [setPhotos photos selectedFilter generatedCaption countdown
           isCapturing isGeneratingCaption newPhoto filter].
    repeat split.
    + rewrite length_app. cbn. lia.
    + rewrite firstn_app, Nat.sub_diag, firstn_all. cbn. apply app_nil_r.
Qed.

(** C2. Without a video element or without the drawing canvas,
    takePhoto returns normally and leaves the whole state, hence the
    collection and its length, as it was. *)
Theorem takePhoto_without_source_is_noop (e : Env) (f : FilterConfig) (st : AppState) :
  noFrameSource e ->
  takePhoto e f st = Returned st /\
  (forall st', takePhoto e f st = Returned st' ->
               List.length (photos st') = List.length (photos st)) /\
  (forall err, takePhoto e f st <> Thrown err).
Proof.
  intros H.
  assert (E : takePhoto e f st = Returned st).
  { unfold takePhoto, Capture.takePhoto.
    destruct H as [-> | ->]; [reflexivity|].
    destruct (videoRef e); reflexivity. }
  rewrite E. repeat split.
  - intros st' [= <-]. reflexivity.
  - discriminate.
Qed.

(** C4. With the filter named normal the noise loop is not entered: the
    bytes encoded are those of the unperturbed mirrored draw. *)
Theorem normal_filter_skips_noise
    (e : Env) (f : FilterConfig) (st : AppState) (video : Video) (canvas : Canvas) :
  videoRef e = Some video -> canvasRef e = Some canvas ->
  context2d canvas = true ->
  name f = "normal" ->
  capturedPixels e f video = Returned (drawMirrored (cssFilter f) video) /\
  takePhoto e f st =
    Returned (setPhotos
                (fun prev => prev ++
                   [mkPhoto (toString (nowId e))
                            (toDataURL (videoWidth video) (videoHeight video)
                                       (drawMirrored (cssFilter f) video))
                            (nowTimestamp e) "normal"])
                st).
Proof.
  intros Hv Hc Hctx Hn.
  assert (E : capturedPixels e f video = Returned (drawMirrored (cssFilter f) video)).
  { unfold capturedPixels, Capture.capturedPixels. rewrite Hn. reflexivity. }
  split; [exact E|].
  unfold takePhoto, Capture.takePhoto. rewrite Hv, Hc, Hctx. cbn [negb].
  fold capturedPixels. rewrite E. unfold newPhoto. now rewrite Hn.
Qed.


End CaptureProperties.

Lemma takePhoto_appends_exactly_one_witness :
  Capture.validFrameSource Samples.env /\
  exists st',
    Capture.takePhoto Samples.draw Samples.encode Samples.env Samples.sepia
                      initialState = Returned st' /\
    List.length (photos st') = 1%nat /\
    selectedFilter st' = FILTERS_0 /\ generatedCaption st' = EmptyString.
Proof.
  assert (V : Capture.validFrameSource Samples.env).
  { exists Samples.video, Samples.canvas. cbn. repeat split; lia. }
  split; [exact V|].
  destruct (takePhoto_appends_exactly_one Samples.draw Samples.encode
              Samples.env Samples.sepia initialState V)
    as (st' & p & E & _ & L & _ & _ & F & C & _).
  exists st'. repeat split; assumption.
Defined.

Lemma takePhoto_without_source_is_noop_witness :
  Capture.noFrameSource Samples.envNoVideo /\
  Capture.takePhoto Samples.draw Samples.encode Samples.envNoVideo Samples.sepia
                    initialState = Returned initialState.
Proof.
  assert (N : Capture.noFrameSource Samples.envNoVideo) by (left; reflexivity).
  split; [exact N|].
  exact (proj1 (takePhoto_without_source_is_noop Samples.draw Samples.encode
                  Samples.envNoVideo Samples.sepia initialState N)).
Defined.

Lemma normal_filter_skips_noise_witness :
  Capture.capturedPixels Samples.draw Samples.env FILTERS_0 Samples.video
  = Returned [250; 100; 100; 255; 0; 3; 128; 255].
Proof.
  exact (proj1 (normal_filter_skips_noise Samples.draw Samples.encode
                  Samples.env FILTERS_0 initialState Samples.video Samples.canvas
                  eq_refl eq_refl eq_refl eq_refl)).
Defined.




(** The noise loop on the sample frame: noise +9 on the first pixel, so
    250 + 9 = 259 is stored as 255 and the green and blue bytes move by 9;
    noise -8 on the second, so 0 - 8 and 3 - 8 are stored as 0. *)
Lemma sample_noise_run :
  Capture.capturedPixels Samples.draw Samples.env Samples.sepia Samples.video
  = Returned [255; 109; 109; 255; 0; 0; 120; 255].
Proof. vm_compute. reflexivity. Qed.

(** With [Math.random()] returning the double nearest 0.525 the noise is
    exactly 0.5 (10.5 - 10 after the product is rounded), and the ties are
    stored to the even byte: 100.5 as 100, 101.5 as 102, 254.5 as 254. *)
Lemma noise_run_at_ties :
  Capture.noiseLoop (fun _ => 4728779608739021 # 9007199254740992) 0
                    [100; 101; 254; 255]
  = [100; 102; 254; 255].
Proof. vm_compute. reflexivity. Qed.

(** ** Captioning *)

Section CaptionProperties.

Import Gemini Caption.

Lemma generateVintageCaption_returns (e : Gemini.Env) (img : string) :
  exists caption, snd (generateVintageCaption e img) = Returned caption.
Proof.
  unfold generateVintageCaption.
  destruct (tryBlock e img) as [sent [caption|err]]; cbn; eauto.
Qed.

(** Whatever is sent to the remote service carries the part of the data
    URL after its first comma, and at most one request is sent. *)
Lemma generateVintageCaption_sends (e : Gemini.Env) (img : string) :
  (List.length (fst (generateVintageCaption e img)) <= 1)%nat /\
  forall r, In r (fst (generateVintageCaption e img)) ->
            data r = nth_error (split "," img) 1.
Proof.
  unfold generateVintageCaption, tryBlock.
  destruct (getAiClient e) as [ai|err]; cbn.
  - split; [lia|]. intros r [<- | []]. reflexivity.
  - split; [lia|]. intros r [].
Qed.

(** C8. Whatever the image, when the external captioning call fails (no
    usable API key, or the request is rejected) generateVintageCaption
    settles with the fixed string "Error developing caption..." and never
    with an error. *)
Theorem caption_failure_gives_fallback (e : Gemini.Env) (img : string) :
  callFails e img ->
  snd (generateVintageCaption e img) = Returned ERROR_FALLBACK /\
  forall err, snd (generateVintageCaption e img) <> Thrown err.
Proof.
  intros H.
  assert (E : snd (generateVintageCaption e img) = Returned ERROR_FALLBACK).
  { unfold generateVintageCaption, tryBlock.
    destruct H as [-> | (ai & err & -> & H)]; [reflexivity|].
    cbn. now rewrite H. }
  rewrite E. split; [reflexivity | discriminate].
Qed.

Lemma last_photo (ps : list Photo) (p : Photo) :
  nth_error (ps ++ [p]) (List.length (ps ++ [p]) - 1) = Some p.
Proof.
  rewrite length_app. cbn [List.length].
  replace (List.length ps + 1 - 1)%nat with (List.length ps) by lia.
  rewrite nth_error_app2, Nat.sub_diag by lia. reflexivity.
Qed.

(** C10. When the collection ends with photo [p], the caption handler
    passes exactly [p]'s image data to the captioning function, and
    completes having sent what that function sends for it: at most one
    request, carrying the part of [p]'s data URL after the comma. When the
    collection is empty the handler returns at once: nothing is passed on,
    no request is sent and the state, caption included, is as it was. *)
Theorem caption_request_uses_last_photo (st : AppState) :
  (forall ps p,
      photos st = ps ++ [p] ->
      handleGenerateCaption_call st
      = Returned (setIsGeneratingCaption true st, Some (dataUrl p)) /\
      forall e, exists caption,
        snd (generateVintageCaption e (dataUrl p)) = Returned caption /\
        handleGenerateCaption e st
        = Returned (handleGenerateCaption_resume caption
                      (setIsGeneratingCaption true st),
                    fst (generateVintageCaption e (dataUrl p))) /\
        forall r, In r (fst (generateVintageCaption e (dataUrl p))) ->
                  data r = nth_error (split "," (dataUrl p)) 1) /\
  (photos st = [] ->
      handleGenerateCaption_call st = Returned (st, None) /\
      forall e, handleGenerateCaption e st = Returned (st, [])).
Proof.
  split.
  - intros ps p Hp.
    assert (E : handleGenerateCaption_call st
                = Returned (setIsGeneratingCaption true st, Some (dataUrl p))).
    { unfold handleGenerateCaption_call. rewrite Hp, last_photo.
      rewrite length_app. cbn [List.length].
      destruct (Nat.eqb_spec (List.length ps + 1) 0); [lia | reflexivity]. }
    split; [exact E|].
    intros e.
    destruct (generateVintageCaption_returns e (dataUrl p)) as [c Hc].
    exists c. split; [exact Hc|]. split.
    + unfold handleGenerateCaption. rewrite E.
      destruct (generateVintageCaption e (dataUrl p)) as [sent body].
      cbn in Hc. now rewrite Hc.
    + apply generateVintageCaption_sends.
  - intros Hp.
    assert (E : handleGenerateCaption_call st = Returned (st, None)).
    { unfold handleGenerateCaption_call. now rewrite Hp. }
    split; [exact E|].
    intros e. unfold handleGenerateCaption. now rewrite E.
Qed.

End CaptionProperties.

Lemma caption_failure_gives_fallback_witness :
  Gemini.generateVintageCaption Samples.geminiNoKey "data:image/png;base64,AAAA"
  = ([], Returned "Error developing caption...") /\
  snd (Gemini.generateVintageCaption Samples.geminiRejects
         "data:image/png;base64,AAAA")
  = Returned "Error developing caption...".
Proof.
  split.
  - pose proof (proj1 (caption_failure_gives_fallback Samples.geminiNoKey
                         "data:image/png;base64,AAAA"
                         (or_introl eq_refl))) as H.
    destruct (Gemini.generateVintageCaption _ _) as [sent body] eqn:E.
    cbn in H. subst body. cbv in E. now injection E as <-.
  - apply (caption_failure_gives_fallback Samples.geminiRejects).
    right. exists "k3y"%string, "503"%string. split; reflexivity.
Defined.

Lemma caption_request_uses_last_photo_witness :
  Caption.handleGenerateCaption_call Samples.twoPhotos
  = Returned (setIsGeneratingCaption true Samples.twoPhotos,
              Some "data:image/png;base64,BBBB") /\
  Caption.handleGenerateCaption_call initialState = Returned (initialState, None).
Proof.
  split.
  - exact (proj1 (proj1 (caption_request_uses_last_photo Samples.twoPhotos)
                    [Samples.photoA] Samples.photoB eq_refl)).
  - exact (proj1 (proj2 (caption_request_uses_last_photo initialState) eq_refl)).
Defined.

(** ** Countdown *)

Section CountdownProperties.

Import Capture Countdown.

Variable drawMirrored : string -> Video -> list Z.
Variable toDataURL : Z -> Z -> list Z -> string.

Let step := Countdown.step drawMirrored toDataURL.
Let run := Countdown.run drawMirrored toDataURL.
Let reachable := Countdown.reachable drawMirrored toDataURL.

Lemma takePhoto_only_photos (e : Env) (f : FilterConfig) (st st' : AppState) :
  takePhoto drawMirrored toDataURL e f st = Returned st' ->
  isCapturing st' = isCapturing st /\ countdown st' = countdown st.
Proof.
  unfold takePhoto.
  destruct (videoRef e), (canvasRef e); try (intros [= <-]; auto).
  destruct (negb _); [intros [= <-]; auto|].
  destruct (capturedPixels _ _ _ _); [|discriminate].
  intros [= <-]. auto.
Qed.

Lemma find_singleton (tid : nat) (t t0 : Timer) :
  List.find (fun x => Nat.eqb (timerId x) tid) [t0] = Some t ->
  t = t0 /\ timerId t0 = tid.
Proof.
  cbn. destruct (Nat.eqb_spec (timerId t0) tid); [|discriminate].
  intros [= <-]. auto.
Qed.

Lemma tick_singleton (t : Timer) (e : Env) (m : Machine) :
  timers m = [t] ->
  step m (IntervalFires (timerId t) e) = intervalCallback drawMirrored toDataURL t e m.
Proof.
  intros Ht. unfold step, Countdown.step. rewrite Ht. cbn.
  now rewrite Nat.eqb_refl.
Qed.

Lemma step_preserves_inv (m : Machine) (ev : Event) :
  countdownInv m -> countdownInv (step m ev).
Proof.
  intros Hinv. pose proof Hinv as (Hlen & Hcap & Hts & Hlog).
  destruct ev as [|tid e|f| | |caption]; cbn.
  - (* startCountdown *)
    unfold startCountdown. destruct (isCapturing (app m)) eqn:Hc.
    + exact Hinv.
    + assert (Hnil : timers m = []).
      { destruct (timers m); [reflexivity|].
        assert (false = true) by (apply Hcap; discriminate).
        discriminate. }
      rewrite Hnil. unfold countdownInv. cbn.
      split; [lia|]. split; [reflexivity|]. split.
      * repeat constructor; cbn; lia.
      * eapply Forall_impl; [|exact Hlog]. cbn. lia.
  - (* one tick *)
    destruct (List.find _ (timers m)) as [t|] eqn:Hf; [|exact Hinv].
    destruct (timers m) as [|t0 [|t1 ts]] eqn:Hm;
      [discriminate | | cbn in Hlen; lia].
    apply find_singleton in Hf. destruct Hf as [-> Htid].
    inversion Hts as [|? ? [Hcnt Hid] _]; subst.
    unfold intervalCallback. rewrite Hm.
    destruct (Z.ltb_spec 0 (count t0 - 1)).
    + unfold countdownInv. cbn. rewrite Nat.eqb_refl. cbn.
      split; [lia|]. split; [|split].
      * intros _. apply Hcap. discriminate.
      * repeat constructor; cbn; lia.
      * assumption.
    + assert (Hts' : clearInterval (timerId t0)
                       (setCount (timerId t0) (count t0 - 1) [t0]) = []).
      { cbn. rewrite Nat.eqb_refl. cbn. now rewrite Nat.eqb_refl. }
      rewrite Hts'.
      assert (Hlog' : Forall (fun i => (i < nextTimerId m)%nat)
                             (captures m ++ [timerId t0])).
      { apply Forall_app. split; [assumption|]. repeat constructor. assumption. }
      destruct (takePhoto _ _ _ _ _); unfold countdownInv; cbn;
        (split; [lia|]); (split; [congruence|]); (split; [constructor|]);
        assumption.
  - exact Hinv.
  - exact Hinv.
  - unfold Caption.handleGenerateCaption_call.
    destruct (Nat.eqb _ 0); [exact Hinv|].
    destruct (nth_error _ _); exact Hinv.
  - exact Hinv.
Qed.

Lemma reachable_inv (m : Machine) : reachable m -> countdownInv m.
Proof.
  intros [evs ->]. unfold Countdown.run.
  assert (H0 : countdownInv initialMachine).
  { repeat split; cbn; try lia; try constructor. congruence. }
  revert H0. generalize initialMachine.
  induction evs as [|ev evs IH]; intros m0 H0; cbn; [assumption|].
  apply IH. now apply step_preserves_inv.
Qed.

(** A user action on a page with [isCapturing] set leaves the timers, the
  log, [isCapturing] and the displayed count alone. *)
Lemma user_step_keeps_countdown (m : Machine) (ev : Event) :
  userAction ev = true -> isCapturing (app m) = true ->
  sameCountdown m (step m ev).
Proof.
  intros Hu Hc. unfold sameCountdown.
  destruct ev as [|tid e|f| | |caption]; try discriminate; cbn.
  - unfold startCountdown. rewrite Hc. auto.
  - auto.
  - auto.
  - unfold Caption.handleGenerateCaption_call.
    destruct (Nat.eqb _ 0); [auto|].
    destruct (nth_error _ _); auto.
  - auto.
Qed.

Lemma user_run_keeps_countdown (us : list Event) :
  forall m,
    forallb userAction us = true -> isCapturing (app m) = true ->
    sameCountdown m (run m us).
Proof.
  induction us as [|ev us IH]; intros m Hu Hc; [cbn; unfold sameCountdown; auto|].
  cbn in Hu. apply andb_true_iff in Hu. destruct Hu as [Hev Hus].
  destruct (user_step_keeps_countdown m ev Hev Hc) as (Ht & Hl & Hn & Hd & Hc').
  destruct (IH (step m ev) Hus Hc') as (Ht2 & Hl2 & Hn2 & Hd2 & Hc2).
  change (run m (ev :: us)) with (run (step m ev) us).
  unfold sameCountdown. rewrite Ht2, Hl2, Hn2, Hd2, Hc2. auto.
Qed.

Lemma run_app (m : Machine) (xs ys : list Event) :
  run m (xs ++ ys) = run (run m xs) ys.
Proof. apply fold_left_app. Qed.


(** A tick of the live timer with more than one tick left: the count goes
  down by one and is displayed; nothing is captured. *)
Lemma tick_live (m : Machine) (tid : nat) (c : Z) (f : FilterConfig) (e : Env) :
  timers m = [mkTimer tid c f] -> 1 < c -> isCapturing (app m) = true ->
  let m' := step m (IntervalFires tid e) in
  timers m' = [mkTimer tid (c - 1) f] /\
  captures m' = captures m /\
  countdown (app m') = Some (c - 1) /\
  isCapturing (app m') = true.
Proof.
  intros Ht Hc Hcap m'. subst m'.
  pose proof (tick_singleton (mkTimer tid c f) e m Ht) as E.
  cbn [timerId] in E. rewrite E. clear E.
  unfold intervalCallback. cbn [count timerId closureFilter].
  destruct (Z.ltb_spec 0 (c - 1)); [|lia].
  rewrite Ht. cbn. rewrite Nat.eqb_refl. auto.
Qed.



End CountdownProperties.


(** ** Composite exporter: layout *)

Module LayoutFacts.

Import Exporter.

(** [Math.ceil(n / 2)] on a length is [(n + 1) / 2]. *)
Lemma ceil_half (n : nat) :
  Qceiling (inject_Z (Z.of_nat n) / inject_Z cols) = (Z.of_nat n + 1) / 2.
Proof.
  unfold Qceiling, Qfloor, cols. cbn.
  rewrite Z.mul_1_r.
  generalize (Z.of_nat n). intros a.
  Z.to_euclidean_division_equations. lia.
Qed.

(** The rows the code reserves: two for an empty collection, otherwise
  as many as the photos fill. *)
Lemma rowsOf_cases (n : nat) :
  rowsOf n = if Nat.eqb n 0 then 2 else (Z.of_nat n + 1) / 2.
Proof.
  unfold rowsOf. rewrite ceil_half.
  destruct n as [|n]; [reflexivity|].
  cbn [Nat.eqb].
  destruct (Z.eqb_spec ((Z.of_nat (S n) + 1) / 2) 0) as [E|E]; [|reflexivity].
  exfalso. revert E. Z.to_euclidean_division_equations. lia.
Qed.

(** From three photos on the code and the specification agree on the
  row count. *)
Lemma rowsOf_matches_spec_from_3 (n : nat) :
  (3 <= n)%nat -> rowsOf n = SpecModel.rowsSpec n.
Proof.
  intros Hn. rewrite rowsOf_cases. unfold SpecModel.rowsSpec.
  change 2%Q with (inject_Z cols). rewrite ceil_half.
  destruct (Nat.eqb_spec n 0); [lia|].
  Z.to_euclidean_division_equations. lia.
Qed.

End LayoutFacts.

(** C5, at the input where the code departs from it. With one photo, or
  two, the exporter reserves a single row (canvas height 455) where the
  specification's rule, ceil(N / 2) but at least 2, gives two rows
  (height 700); only the empty collection gets the two-row default. *)
Theorem rows_for_one_photo_below_minimum :
  Exporter.rowsOf 1 = 1 /\ SpecModel.rowsSpec 1 = 2 /\
  Exporter.rowsOf 2 = 1 /\ SpecModel.rowsSpec 2 = 2 /\
  Exporter.stripHeight 1 = 455 /\ Exporter.stripHeight 2 = 455 /\
  Exporter.stripHeight 0 = 700.
Proof. repeat split. Qed.

(** C7. With a drawing context and an empty collection the exporter
  produces its download, on a canvas 700 wide and 700 high: two rows of
  225, one gap of 20, padding of 40 above and below, and the label band
  of 150. *)
Theorem export_empty_collection (e : Exporter.Env) (st : AppState) :
  Exporter.context2d e = true ->
  photos st = [] ->
  exists d,
    Exporter.downloadPhotoStrip e st = Some d /\
    Exporter.canvasHeight d = 2 * 225 + 20 + 40 + 40 + 150 /\
    Exporter.canvasHeight d = 700 /\
    Exporter.canvasWidth d = 700.
Proof.
  intros Hctx Hp. unfold Exporter.downloadPhotoStrip.
  rewrite Hctx, Hp. cbn [negb]. eexists. split; [reflexivity|].
  repeat split.
Qed.

Lemma export_empty_collection_witness :
  exists d,
    Exporter.downloadPhotoStrip Samples.exportEnv initialState = Some d /\
    Exporter.canvasHeight d = 700 /\
    Exporter.filename d = "retro-booth-1700000009000.png".
Proof.
  destruct (export_empty_collection Samples.exportEnv initialState eq_refl eq_refl)
    as (d & E & _ & H & _).
  exists d. split; [exact E|]. split; [exact H|].
  cbv in E. injection E as <-. reflexivity.
Defined.

(** ** Composite exporter: word wrap *)

Module WrapFacts.

Import Exporter PieceWrap.

Lemma append_assoc (a b c : string) :
  ((a ++ b) ++ c)%string = (a ++ (b ++ c))%string.
Proof. induction a as [|x a IH]; cbn; [reflexivity | now rewrite IH]. Qed.

Lemma lineText_snoc (cur : list string) (w : string) :
  lineText (cur ++ [w]) = (lineText cur ++ w ++ " ")%string.
Proof.
  induction cur as [|a cur IH]; [reflexivity|].
  change (lineText ((a :: cur) ++ [w]))
    with (a ++ " " ++ lineText (cur ++ [w]))%string.
  change (lineText (a :: cur)) with (a ++ " " ++ lineText cur)%string.
  now rewrite IH, !append_assoc.
Qed.

Lemma lineText_one (w : string) : lineText [w] = (w ++ " ")%string.
Proof. reflexivity. Qed.

Lemma split_nonempty (sep : ascii) (s : string) : split sep s <> [].
Proof.
  destruct s as [|c s]; cbn; [discriminate|].
  destruct (Ascii.eqb c sep); [discriminate|].
  destruct (split sep s); discriminate.
Qed.

Section Loop.

Variable width_of : string -> Q.
Variable canvasW cx : Z.

(** The loop of the code, entered with a line made of the words [cur] and
  an index that is zero exactly when [cur] is empty, draws what the
  greedy wrap commits. *)
Lemma wrapLoop_greedy (words : list string) :
  forall (cur : list string) (n : nat) (y : Z),
    Nat.ltb 0 n = hasWord cur ->
    wrapLoop width_of canvasW cx words n (lineText cur) y
    = map (fun l => FillText captionFont "#555" (lineText (fst l)) cx (snd l))
          (greedy width_of (canvasW - 60) words cur y).
Proof.
  induction words as [|w rest IH]; intros cur n y Hn; [reflexivity|].
  cbn [wrapLoop greedy]. unfold exceeds.
  rewrite lineText_snoc, Hn.
  destruct (Qlt_bool _ _ && hasWord cur).
  - cbn [map]. f_equal. rewrite <- lineText_one.
    apply IH. reflexivity.
  - rewrite <- lineText_snoc. apply IH.
    destruct cur; reflexivity.
Qed.

(** The committed lines, put end to end, are the words in order. *)
Lemma greedy_concat (words : list string) :
  forall cur y,
    List.concat (map fst (greedy width_of (canvasW - 60) words cur y)) = cur ++ words.
Proof.
  induction words as [|w rest IH]; intros cur y; cbn [greedy].
  - cbn. now rewrite app_nil_r.
  - destruct (exceeds _ _ _ _ && hasWord cur).
    + cbn [map fst List.concat]. now rewrite IH.
    + rewrite IH, <- app_assoc. reflexivity.
Qed.

(** The k-th committed line sits 30 units below the one before it. *)
Lemma greedy_cursor (words : list string) :
  forall cur y k l,
    nth_error (greedy width_of (canvasW - 60) words cur y) k = Some l ->
    snd l = y + 30 * Z.of_nat k.
Proof.
  induction words as [|w rest IH]; intros cur y k l; cbn [greedy].
  - destruct k as [|[|k]]; cbn; try discriminate. intros [= <-]. cbn. lia.
  - destruct (exceeds _ _ _ _ && hasWord cur).
    + destruct k as [|k]; cbn [nth_error].
      * intros [= <-]. cbn. lia.
      * intros H. apply IH in H. rewrite H. lia.
    + apply IH.
Qed.

(** Every committed line holds at least one word. *)
Lemma greedy_lines_nonempty (words : list string) :
  forall cur y,
    words <> [] \/ cur <> [] ->
    Forall (fun l => fst l <> [])
           (greedy width_of (canvasW - 60) words cur y).
Proof.
  induction words as [|w rest IH]; intros cur y H; cbn [greedy].
  - constructor; [|constructor]. cbn. destruct H; congruence.
  - destruct (exceeds _ _ _ _ && hasWord cur) eqn:E.
    + constructor.
      * cbn. apply andb_true_iff in E. destruct E as [_ E].
        destruct cur; [discriminate | discriminate].
      * apply IH. right. discriminate.
    + apply IH. right. destruct cur; discriminate.
Qed.

End Loop.

End WrapFacts.

Lemma captionLines_app (a b : list Exporter.DrawOp) :
  Terms.captionLines (a ++ b) = Terms.captionLines a ++ Terms.captionLines b.
Proof.
  induction a as [|op a IH]; [reflexivity|].
  destruct op; cbn [app Terms.captionLines]; try exact IH.
  destruct (String.eqb _ _); cbn [app]; now rewrite IH.
Qed.

Lemma captionLines_drawPhotos (ps : list Photo) :
  forall k, Terms.captionLines (Exporter.drawPhotos k ps) = [].
Proof.
  induction ps as [|p ps IH]; intros k; [reflexivity|]. cbn. apply IH.
Qed.

Lemma captionLines_lines (cx : Z) (lines : list (list string * Z)) :
  Terms.captionLines
    (map (fun l => Exporter.FillText Exporter.captionFont "#555"
                     (PieceWrap.lineText (fst l)) cx (snd l)) lines)
  = map (fun l => (PieceWrap.lineText (fst l), snd l)) lines.
Proof.
  induction lines as [|l lines IH]; [reflexivity|].
  cbn [map Terms.captionLines]. now rewrite String.eqb_refl, IH.
Qed.

(** C6, as the code has it. For a non-empty caption the export draws,
    after the background, the photos and the date and before the overlay,
    the lines of the greedy wrap over the pieces of [caption.split(' ')]:
    the line is the pieces, each followed by one space; a piece whose
    addition (with its space) takes the measured width past canvas width
    - 60 commits the line, if the line holds a piece already, moves the
    cursor down 30 and starts the next line; the last line is committed
    at the end. The lines put end to end are the pieces in order, so no
    piece is split or lost; every line holds a piece; the k-th line is
    drawn 30 * k below the first, which is at canvas height - 60. *)
Theorem export_wraps_caption_by_pieces
    (e : Exporter.Env) (st : AppState) (d : Exporter.Download) :
  Exporter.downloadPhotoStrip e st = Some d ->
  generatedCaption st <> EmptyString ->
  let w := Exporter.canvasWidth d in
  let h := Exporter.canvasHeight d in
  let pieces := split " " (generatedCaption st) in
  let lines :=
    PieceWrap.greedy (Exporter.measureText e Exporter.captionFont) (w - 60)
                     pieces [] (h - 60) in
  Exporter.ops d
  = [Exporter.FillRect "#fdfbf7" 0 0 w h; Exporter.StipplePass "rgba(0,0,0,0.03)"]
    ++ Exporter.drawPhotos 0 (photos st)
    ++ [Exporter.FillText Exporter.dateFont "#222" (Exporter.dateStr e)
                          (w / 2) (h - 100)]
    ++ map (fun l => Exporter.FillText Exporter.captionFont "#555"
                       (PieceWrap.lineText (fst l)) (w / 2) (snd l)) lines
    ++ [Exporter.VignettePass; Exporter.StipplePass "#000"] /\
  Terms.captionLines (Exporter.ops d)
  = map (fun l => (PieceWrap.lineText (fst l), snd l)) lines /\
  List.concat (map fst lines) = pieces /\
  Forall (fun l => fst l <> []) lines /\
  (forall k l, nth_error lines k = Some l -> snd l = h - 60 + 30 * Z.of_nat k).
Proof.
  unfold Exporter.downloadPhotoStrip.
  destruct (negb (Exporter.context2d e)); [discriminate|].
  intros [= <-] Hc.
  cbn [Exporter.ops Exporter.canvasWidth Exporter.canvasHeight]. cbv zeta.
  set (h := Exporter.stripHeight (List.length (photos st))).
  set (pieces := split " " (generatedCaption st)).
  assert (E : Exporter.drawCaption (Exporter.measureText e Exporter.captionFont)
                Exporter.stripWidth (Exporter.stripWidth / 2)
                (generatedCaption st) h
              = map (fun l => Exporter.FillText Exporter.captionFont "#555"
                                (PieceWrap.lineText (fst l))
                                (Exporter.stripWidth / 2) (snd l))
                    (PieceWrap.greedy (Exporter.measureText e Exporter.captionFont)
                       (Exporter.stripWidth - 60) pieces [] (h - 60))).
  { unfold Exporter.drawCaption.
    destruct (generatedCaption st); [congruence|]. cbn [truthy].
    apply (WrapFacts.wrapLoop_greedy _ Exporter.stripWidth _ pieces [] 0 (h - 60)).
    reflexivity. }
  rewrite E. split; [reflexivity|]. split.
  - cbn [Terms.captionLines].
    rewrite captionLines_app, captionLines_drawPhotos.
    cbn [app Terms.captionLines].
    change (String.eqb Exporter.dateFont Exporter.captionFont) with false.
    cbv iota.
    rewrite captionLines_app, captionLines_lines. cbn. apply app_nil_r.
  - split; [|split].
    + apply (WrapFacts.greedy_concat _ Exporter.stripWidth pieces [] (h - 60)).
    + apply WrapFacts.greedy_lines_nonempty. left. apply WrapFacts.split_nonempty.
    + apply WrapFacts.greedy_cursor.
Qed.

(** The fox caption at 40 units per character: three lines of three
    words, 30 apart, the first at 700 - 60. *)
Lemma export_wraps_caption_by_pieces_witness :
  exists d,
    Exporter.downloadPhotoStrip MoreSamples.wideEnv
      (MoreSamples.captioned Samples.fox) = Some d /\
    Terms.captionLines (Exporter.ops d)
    = [("The quick brown ", 395); ("fox jumps over ", 425); ("the lazy dog ", 455)].
Proof.
  eexists. split; [reflexivity|].
  exact (proj1 (proj2 (export_wraps_caption_by_pieces MoreSamples.wideEnv
                         (MoreSamples.captioned Samples.fox) _ eq_refl
                         ltac:(discriminate)))).
Defined.

(** C6, as stated, fails on the code in two ways. The code measures and
    draws the line with the space that follows each word: for "abcdefgh
    ijklmno pq" at 40 units per character the sixteen characters of
    "abcdefgh ijklmno" fit in 640, but the code measures seventeen and
    breaks after the first word. And the code asks whether the word is the
    first piece, not whether the line contains a word: for a caption that
    starts with a space and goes on with a word wider than the limit it
    commits a blank line. *)
Lemma word_wrap_not_as_worded :
  ~ Terms.wrapsAsWorded MoreSamples.wideEnv
      (MoreSamples.captioned "abcdefgh ijklmno pq") /\
  ~ Terms.wrapsAsWorded MoreSamples.wideEnv
      (MoreSamples.captioned " abcdefghijklmnopq").
Proof.
  split; intros H; specialize (H _ eq_refl); vm_compute in H; discriminate H.
Qed.

(** The two exports of the lemma above, line by line. *)
Lemma word_wrap_runs :
  (exists d,
      Exporter.downloadPhotoStrip MoreSamples.wideEnv
        (MoreSamples.captioned "abcdefgh ijklmno pq") = Some d /\
      Terms.captionLines (Exporter.ops d)
      = [("abcdefgh ", 395); ("ijklmno pq ", 425)] /\
      SpecModel.greedy MoreSamples.wideWidth 640
        (split " " "abcdefgh ijklmno pq") [] 395
      = [("abcdefgh ijklmno", 395); ("pq", 425)]) /\
  (exists d,
      Exporter.downloadPhotoStrip MoreSamples.wideEnv
        (MoreSamples.captioned " abcdefghijklmnopq") = Some d /\
      Terms.captionLines (Exporter.ops d)
      = [(" ", 395); ("abcdefghijklmnopq ", 425)] /\
      SpecModel.greedy MoreSamples.wideWidth 640
        (split " " " abcdefghijklmnopq") [] 395
      = [(" abcdefghijklmnopq", 395)]).
Proof.
  split; eexists; (split; [reflexivity|]); split; vm_compute; reflexivity.
Qed.

(* ===================================================================== *)
(** * Further properties of the code *)
(* ===================================================================== *)

(** ** Capture pipeline *)

Module ClampMore.

Import Terms.

Lemma Qcompare_Lt (x y : Q) : (x < y)%Q -> Qcompare x y = Lt.
Proof. intros H. now apply Qlt_alt. Qed.

Lemma Qcompare_Gt (x y : Q) : (y < x)%Q -> Qcompare x y = Gt.
Proof. intros H. now apply Qgt_alt. Qed.

Lemma floor_is (x : Q) (f : Z) :
  (inject_Z f <= x)%Q -> (x < inject_Z (f + 1))%Q -> Qfloor x = f.
Proof.
  intros Hlo Hhi. pose proof (ClampFacts.floor_between x f (f + 1) Hlo Hhi). lia.
Qed.

Lemma nearest_range (x : Q) : Qfloor x <= nearest x <= Qfloor x + 1.
Proof.
  unfold nearest. destruct (Qcompare _ _); [destruct (Z.even _)| |]; lia.
Qed.

Lemma nearest_monotone (x y : Q) : (x <= y)%Q -> nearest x <= nearest y.
Proof.
  intros Hxy.
  pose proof (Qfloor_resp_le x y Hxy) as Hf.
  pose proof (nearest_range x) as Hx. pose proof (nearest_range y) as Hy.
  destruct (Z.eq_dec (Qfloor x) (Qfloor y)) as [E|E]; [|lia].
  unfold nearest in *. rewrite E in *.
  destruct (Qcompare_spec x (inject_Z (Qfloor y) + (1 # 2))) as [Hx1|Hx1|Hx1];
    destruct (Qcompare_spec y (inject_Z (Qfloor y) + (1 # 2))) as [Hy1|Hy1|Hy1];
    try destruct (Z.even _); try lia; exfalso; lra.
Qed.

(** The clamped store is monotone. *)
Lemma ToUint8Clamp_monotone (x y : Q) :
  (x <= y)%Q -> ToUint8Clamp x <= ToUint8Clamp y.
Proof.
  intros Hxy.
  pose proof (ClampFacts.ToUint8Clamp_byte x) as Bx.
  pose proof (ClampFacts.ToUint8Clamp_byte y) as By.
  destruct (Qle_bool x 0) eqn:X0.
  { unfold ToUint8Clamp at 1. rewrite X0. lia. }
  pose proof (ClampFacts.Qle_bool_false _ _ X0) as X0'.
  assert (Y0 : Qle_bool y 0 = false).
  { destruct (Qle_bool y 0) eqn:Y0; [|reflexivity].
    apply Qle_bool_iff in Y0. exfalso. lra. }
  destruct (Qle_bool 255 y) eqn:Y255.
  { unfold ToUint8Clamp at 2. rewrite Y0, Y255. lia. }
  pose proof (ClampFacts.Qle_bool_false _ _ Y255) as Y255'.
  assert (X255 : Qle_bool 255 x = false).
  { destruct (Qle_bool 255 x) eqn:X255; [|reflexivity].
    apply Qle_bool_iff in X255. exfalso. lra. }
  unfold ToUint8Clamp. rewrite X0, Y0, X255, Y255.
  now apply nearest_monotone.
Qed.

(** A number strictly within half a level of a byte is stored as that
    byte. *)
Lemma store_near (d : Z) (x : Q) :
  0 <= d <= 255 -> (inject_Z d - (1 # 2) < x)%Q -> (x < inject_Z d + (1 # 2))%Q ->
  ToUint8Clamp x = d.
Proof.
  intros Hd Hlo Hhi.
  assert (Hd0 : (0 <= inject_Z d)%Q)
    by (change (inject_Z 0 <= inject_Z d)%Q; rewrite <- Zle_Qle; lia).
  assert (Hd255 : (inject_Z d <= 255)%Q)
    by (change (inject_Z d <= inject_Z 255)%Q; rewrite <- Zle_Qle; lia).
  unfold ToUint8Clamp.
  destruct (Qle_bool x 0) eqn:H0.
  { apply Qle_bool_iff in H0.
    assert (Hq : (inject_Z d < inject_Z 1)%Q)
      by (change (inject_Z 1) with 1%Q; lra).
    rewrite <- Zlt_Qlt in Hq. lia. }
  destruct (Qle_bool 255 x) eqn:H255.
  { apply Qle_bool_iff in H255.
    assert (Hq : (inject_Z 254 < inject_Z d)%Q)
      by (change (inject_Z 254) with 254%Q; lra).
    rewrite <- Zlt_Qlt in Hq. lia. }
  destruct (Qlt_le_dec x (inject_Z d)) as [Hneg|Hpos].
  - assert (Hf : Qfloor x = d - 1).
    { apply floor_is.
      - unfold Z.sub. rewrite inject_Z_plus, inject_Z_opp.
        change (inject_Z 1) with 1%Q. lra.
      - replace (d - 1 + 1) with d by lia. lra. }
    rewrite Hf, Qcompare_Gt; [lia|].
    unfold Z.sub. rewrite inject_Z_plus, inject_Z_opp.
    change (inject_Z 1) with 1%Q. lra.
  - assert (Hf : Qfloor x = d).
    { apply floor_is; [lra|].
      rewrite inject_Z_plus. change (inject_Z 1) with 1%Q. lra. }
    rewrite Hf, Qcompare_Lt; [reflexivity|]. lra.
Qed.

(** The double sum of a byte and a noise of at most 0.499 in absolute
    value stays strictly within half a level of the byte: the doubles
    [d - 511/1024] and [d + 511/1024] enclose it. *)
Lemma sum_near (d : Z) (noise : Q) :
  0 <= d <= 255 -> (-(499 # 1000) <= noise)%Q -> (noise <= 499 # 1000)%Q ->
  (inject_Z d - (1 # 2) < Double.add (inject_Z d) noise)%Q /\
  (Double.add (inject_Z d) noise < inject_Z d + (1 # 2))%Q.
Proof.
  intros Hd Hlo Hhi. unfold Double.add.
  assert (E : forall k, (inject_Z (1024 * d + k) / inject_Z (2 ^ 10)
                         == inject_Z d + inject_Z k * (1 # 1024))%Q).
  { intros k. rewrite inject_Z_plus, inject_Z_mult.
    change (inject_Z (2 ^ 10)) with 1024%Q. change (inject_Z 1024) with 1024%Q.
    field. }
  assert (R : forall k, -511 <= k <= 511 ->
                (Double.round (inject_Z (1024 * d + k) / inject_Z (2 ^ 10))
                 == inject_Z (1024 * d + k) / inject_Z (2 ^ 10))%Q).
  { intros k Hk. apply DoubleFacts.round_dyadic; [|lia].
    assert (E53 : 2 ^ 53 = 9007199254740992) by reflexivity.
    rewrite E53. lia. }
  destruct (DoubleFacts.round_between _ _ (inject_Z d + noise)
              (R (-511) ltac:(lia)) (R 511 ltac:(lia))) as [A B].
  - rewrite E. change (inject_Z (-511)) with (-511)%Q. lra.
  - rewrite E. change (inject_Z 511) with 511%Q. lra.
  - rewrite E in A, B.
    change (inject_Z (-511)) with (-511)%Q in A.
    change (inject_Z 511) with 511%Q in B. split; lra.
Qed.

End ClampMore.

Section CaptureMore.

Import Capture.

Variable drawMirrored : string -> Video -> list Z.
Variable toDataURL : Z -> Z -> list Z -> string.

Let takePhoto := Capture.takePhoto drawMirrored toDataURL.

Lemma takePhoto_shape (e : Env) (f : FilterConfig) (st st' : AppState) :
  takePhoto e f st = Returned st' ->
  st' = st \/
  exists url,
    st' = mkApp (photos st ++ [mkPhoto (toString (nowId e)) url
                                       (nowTimestamp e) (name f)])
                (selectedFilter st) (countdown st) (isCapturing st)
                (generatedCaption st) (isGeneratingCaption st).
Proof.
  unfold takePhoto, Capture.takePhoto.
  destruct (videoRef e) as [video|], (canvasRef e) as [canvas|];
    try (intros [= <-]; now left).
  destruct (negb (context2d canvas)); [intros [= <-]; now left|].
  destruct (capturedPixels _ _ _ _) as [px|err]; [|discriminate].
  intros [= <-]. right. eexists. reflexivity.
Qed.

(** takePhoto, whatever it is given, never drops, reorders or rewrites a
    photo and never touches another state cell: when it returns, the
    state is either the one it was given or that state with one photo
    appended, stamped with the call's clock readings and the name of the
    filter the call was made with. *)
Theorem takePhoto_only_appends (e : Env) (f : FilterConfig) (st st' : AppState) :
  takePhoto e f st = Returned st' ->
  st' = st \/
  exists url,
    st' = mkApp (photos st ++ [mkPhoto (toString (nowId e)) url
                                       (nowTimestamp e) (name f)])
                (selectedFilter st) (countdown st) (isCapturing st)
                (generatedCaption st) (isGeneratingCaption st).
Proof.
  unfold takePhoto, Capture.takePhoto.
  destruct (videoRef e) as [video|], (canvasRef e) as [canvas|];
    try (intros [= <-]; now left).
  destruct (negb (context2d canvas)); [intros [= <-]; now left|].
  destruct (capturedPixels _ _ _ _) as [px|err]; [|discriminate].
  intros [= <-]. right.
  exists (toDataURL (videoWidth video) (videoHeight video) px). reflexivity.
Qed.

(** With the filter named normal takePhoto cannot throw, and it records a
    photo whenever the video element, the canvas and its 2d context
    exist, also for a video element that has no frame yet (size 0 x 0). *)
Theorem normal_filter_always_records (e : Env) (f : FilterConfig) (st : AppState) :
  name f = "normal" ->
  (exists st', takePhoto e f st = Returned st') /\
  (forall video canvas,
      videoRef e = Some video -> canvasRef e = Some canvas ->
      context2d canvas = true ->
      exists p, takePhoto e f st
                = Returned (setPhotos (fun prev => prev ++ [p]) st) /\
                filter p = "normal").
Proof.
  intros Hn.
  assert (Hpx : forall video,
             capturedPixels drawMirrored e f video
             = Returned (drawMirrored (cssFilter f) video)).
  { intros video. unfold capturedPixels. now rewrite Hn. }
  split.
  - unfold takePhoto, Capture.takePhoto.
    destruct (videoRef e) as [video|], (canvasRef e) as [canvas|]; eauto.
    destruct (negb _); eauto. rewrite Hpx. eauto.
  - intros video canvas Hv Hc Hctx.
    unfold takePhoto, Capture.takePhoto. rewrite Hv, Hc, Hctx, Hpx. cbn [negb].
    eexists. split; [reflexivity|]. exact Hn.
Qed.

(** A canvas that yields no 2d context makes takePhoto a no-op, like a
    missing element does. *)
Theorem takePhoto_without_context_is_noop
    (e : Env) (f : FilterConfig) (st : AppState) (canvas : Canvas) :
  canvasRef e = Some canvas -> context2d canvas = false ->
  takePhoto e f st = Returned st.
Proof.
  intros Hc Hctx. unfold takePhoto, Capture.takePhoto. rewrite Hc, Hctx.
  destruct (videoRef e); reflexivity.
Qed.

End CaptureMore.

Lemma takePhoto_only_appends_witness :
  exists st',
    Capture.takePhoto Samples.draw Samples.encode Samples.env Samples.sepia
                      Samples.twoPhotos = Returned st' /\
    (st' = Samples.twoPhotos \/
     exists url,
       photos st' = [Samples.photoA; Samples.photoB;
                     mkPhoto "1700000000000" url 1700000000001 "sepia"]).
Proof.
  eexists. split; [reflexivity|].
  destruct (takePhoto_only_appends Samples.draw Samples.encode Samples.env
              Samples.sepia Samples.twoPhotos _ eq_refl) as [H | [url H]].
  - now left.
  - right. exists url. rewrite H. reflexivity.
Defined.

Lemma normal_filter_always_records_witness :
  exists p,
    Capture.takePhoto Samples.draw Samples.encode MoreSamples.blankEnv FILTERS_0
                      initialState
    = Returned (setPhotos (fun prev => prev ++ [p]) initialState).
Proof.
  destruct (proj2 (normal_filter_always_records Samples.draw Samples.encode
                     MoreSamples.blankEnv FILTERS_0 initialState eq_refl)
              MoreSamples.blankVideo Samples.canvas eq_refl eq_refl eq_refl)
    as (p & H & _).
  exists p. exact H.
Defined.

Lemma takePhoto_without_context_is_noop_witness :
  Capture.takePhoto Samples.draw Samples.encode MoreSamples.envNoContext
                    Samples.sepia Samples.twoPhotos = Returned Samples.twoPhotos.
Proof.
  exact (takePhoto_without_context_is_noop Samples.draw Samples.encode
           MoreSamples.envNoContext Samples.sepia Samples.twoPhotos
           (Capture.mkCanvas false) eq_refl eq_refl).
Defined.

(** ** The noise loop *)

Module NoiseMore.

Import Capture.

(** The loop reads one random value per pixel started: two random
    sources that agree on those values give the same bytes. *)
Lemma noiseLoop_ext (rnd rnd' : nat -> Q) (data : list Z) :
  forall k,
    (forall j, (4 * j < List.length data)%nat -> rnd (k + j)%nat = rnd' (k + j)%nat) ->
    noiseLoop rnd k data = noiseLoop rnd' k data.
Proof.
  induction data as [|a|a b|a b c|a b c d l IH] using NoiseFacts.list_ind4;
    intros k H; try reflexivity.
  - cbn. rewrite <- (Nat.add_0_r k). rewrite (H 0%nat) by (cbn; lia). reflexivity.
  - cbn. rewrite <- (Nat.add_0_r k). rewrite (H 0%nat) by (cbn; lia). reflexivity.
  - cbn. rewrite <- (Nat.add_0_r k). rewrite (H 0%nat) by (cbn; lia). reflexivity.
  - cbn [noiseLoop].
    assert (E0 : rnd k = rnd' k).
    { rewrite <- (Nat.add_0_r k). apply H. cbn. lia. }
    rewrite E0. do 4 f_equal. apply IH.
    intros j Hj. replace (S k + j)%nat with (k + S j)%nat by lia.
    apply H. cbn [List.length]. lia.
Qed.

End NoiseMore.

(** Within a pixel the noise keeps the order of the colour channels: of
    two colour bytes of the same pixel the smaller one is not stored
    larger than the other, and equal bytes are stored equal (a grey pixel
    stays grey). *)
Theorem noise_keeps_channel_order
    (rnd : nat -> Q) (data : list Z) (i j : nat) (di dj : Z) :
  nth_error data i = Some di -> nth_error data j = Some dj ->
  (i / 4 = j / 4)%nat -> (i mod 4 <> 3)%nat -> (j mod 4 <> 3)%nat ->
  di <= dj ->
  exists oi oj,
    nth_error (Capture.noiseLoop rnd 0 data) i = Some oi /\
    nth_error (Capture.noiseLoop rnd 0 data) j = Some oj /\
    oi <= oj /\ (di = dj -> oi = oj).
Proof.
  intros Hi Hj Hpix Hai Haj Hle.
  exists (Capture.storedAt rnd 0 i di), (Capture.storedAt rnd 0 j dj).
  split; [now apply NoiseFacts.noiseLoop_nth|].
  split; [now apply NoiseFacts.noiseLoop_nth|].
  unfold Capture.storedAt.
  apply Nat.eqb_neq in Hai, Haj. rewrite Hai, Haj, Hpix.
  split.
  - apply ClampMore.ToUint8Clamp_monotone.
    unfold Double.add. apply DoubleFacts.round_monotone.
    assert (H : (inject_Z di <= inject_Z dj)%Q) by (rewrite <- Zle_Qle; exact Hle).
    lra.
  - intros ->. reflexivity.
Qed.

Lemma noise_keeps_channel_order_witness :
  exists oi oj,
    nth_error (Capture.noiseLoop Samples.rnd 0 (Capture.frame Samples.video)) 5
    = Some oi /\
    nth_error (Capture.noiseLoop Samples.rnd 0 (Capture.frame Samples.video)) 6
    = Some oj /\
    oi <= oj.
Proof.
  destruct (noise_keeps_channel_order Samples.rnd (Capture.frame Samples.video)
              5 6 3 128 eq_refl eq_refl eq_refl
              ltac:(discriminate) ltac:(discriminate) ltac:(lia))
    as (oi & oj & Hi & Hj & Hle & _).
  exists oi, oj. repeat split; assumption.
Defined.

(** A colour byte whose pixel drew a noise of at most 0.499 in absolute
    value is stored unchanged. (At the half level itself the double sum
    can land on a tie and move an odd byte.) *)
Theorem small_noise_keeps_byte
    (rnd : nat -> Q) (data : list Z) (i : nat) (d : Z) :
  nth_error data i = Some d -> 0 <= d <= 255 ->
  (-(499 # 1000) <= Capture.noiseOf (rnd (i / 4)%nat))%Q ->
  (Capture.noiseOf (rnd (i / 4)%nat) <= 499 # 1000)%Q ->
  nth_error (Capture.noiseLoop rnd 0 data) i = Some d.
Proof.
  intros Hi Hd Hlo Hhi.
  rewrite (NoiseFacts.noiseLoop_nth rnd data 0 i d Hi). f_equal.
  unfold Capture.storedAt. cbn [Nat.add].
  destruct (Nat.eqb (i mod 4) 3); [reflexivity|].
  destruct (ClampMore.sum_near d _ Hd Hlo Hhi) as [A B].
  now apply ClampMore.store_near.
Qed.

Lemma small_noise_keeps_byte_witness :
  nth_error (Capture.noiseLoop (fun _ => 51 # 100) 0 [250; 101; 100; 255]) 1
  = Some 101.
Proof.
  apply (small_noise_keeps_byte (fun _ => 51 # 100)
           [250; 101; 100; 255] 1 101 eq_refl); [lia | |];
    apply Qle_bool_iff; vm_compute; reflexivity.
Defined.

(** Just below the half level the byte can move: with [Math.random()]
    returning 1182194902184755 / 2^51 the noise is 0.5 - 2^-49, the double
    sum with 101 is 101.5, and 102 is stored. *)
Lemma noise_just_below_half_moves_byte :
  (Capture.noiseOf (1182194902184755 # 2251799813685248) < 1 # 2)%Q /\
  Capture.noiseLoop (fun _ => 1182194902184755 # 2251799813685248) 0
                    [101; 101; 101; 255]
  = [102; 102; 102; 255].
Proof. split; vm_compute; reflexivity. Qed.

(** Pixel [p] is perturbed with the [p]-th value of [Math.random()] and
    with no other: a colour byte at index [i] becomes the stored sum of
    the byte and the noise made from draw [i / 4]; two runs whose random
    sources agree at [p] leave the same bytes in pixel [p], whatever the
    sources return elsewhere; and two runs whose sources agree on the
    first value for each pixel started produce the same image, so nothing
    beyond those values is read. *)
Theorem noise_draws_per_pixel (rnd rnd' : nat -> Q) (data : list Z) :
  (forall i d, nth_error data i = Some d -> (i mod 4 <> 3)%nat ->
               nth_error (Capture.noiseLoop rnd 0 data) i
               = Some (ToUint8Clamp
                         (Double.add (inject_Z d)
                                     (Capture.noiseOf (rnd (i / 4)%nat))))) /\
  (forall i, rnd (i / 4)%nat = rnd' (i / 4)%nat ->
             nth_error (Capture.noiseLoop rnd 0 data) i
             = nth_error (Capture.noiseLoop rnd' 0 data) i) /\
  ((forall j, (4 * j < List.length data)%nat -> rnd j = rnd' j) ->
   Capture.noiseLoop rnd 0 data = Capture.noiseLoop rnd' 0 data).
Proof.
  split; [|split].
  - intros i d Hd Hi.
    rewrite (NoiseFacts.noiseLoop_nth rnd data 0 i d Hd).
    unfold Capture.storedAt. cbn [Nat.add].
    apply Nat.eqb_neq in Hi. now rewrite Hi.
  - intros i Hr.
    destruct (nth_error data i) as [d|] eqn:Hd.
    + rewrite (NoiseFacts.noiseLoop_nth rnd data 0 i d Hd).
      rewrite (NoiseFacts.noiseLoop_nth rnd' data 0 i d Hd).
      unfold Capture.storedAt. cbn [Nat.add]. now rewrite Hr.
    + apply nth_error_None in Hd.
      assert (H1 : nth_error (Capture.noiseLoop rnd 0 data) i = None).
      { apply nth_error_None. now rewrite NoiseFacts.noiseLoop_length. }
      assert (H2 : nth_error (Capture.noiseLoop rnd' 0 data) i = None).
      { apply nth_error_None. now rewrite NoiseFacts.noiseLoop_length. }
      now rewrite H1, H2.
  - intros H. apply NoiseMore.noiseLoop_ext. intros j Hj. now apply H.
Qed.

(** The second pixel of the sample frame is the same whether the first
    draw is 0.95 or 0.3, and the first pixel is not. *)
Lemma noise_draws_per_pixel_witness :
  let rnd' := fun n => match n with O => 3 # 10 | _ => 1 # 10 end in
  let data := Capture.frame Samples.video in
  nth_error (Capture.noiseLoop Samples.rnd 0 data) 6
  = nth_error (Capture.noiseLoop rnd' 0 data) 6 /\
  nth_error (Capture.noiseLoop Samples.rnd 0 data) 1 = Some 109 /\
  nth_error (Capture.noiseLoop rnd' 0 data) 1 = Some 96.
Proof.
  intros rnd' data. split.
  - exact (proj1 (proj2 (noise_draws_per_pixel Samples.rnd rnd' data))
             6%nat eq_refl).
  - split; vm_compute; reflexivity.
Defined.

(** ** Countdown *)

Section CountdownMore.

Import Capture Countdown Terms.

Variable drawMirrored : string -> Video -> list Z.
Variable toDataURL : Z -> Z -> list Z -> string.

Let step := Countdown.step drawMirrored toDataURL.
Let run := Countdown.run drawMirrored toDataURL.
Let reachable := Countdown.reachable drawMirrored toDataURL.

Lemma step_preserves_display (m : Machine) (ev : Event) :
  countdownInv m -> displayMatches m -> displayMatches (step m ev).
Proof.
  intros Hinv Hd. pose proof Hinv as (Hlen & Hcap & Hts & Hlog).
  unfold displayMatches in *.
  destruct ev as [|tid e|f| | |caption]; cbn.
  - unfold startCountdown. destruct (isCapturing (app m)) eqn:Hc; [exact Hd|].
    destruct (timers m) as [|t ts]; [reflexivity|].
    assert (false = true) by (apply Hcap; discriminate). discriminate.
  - destruct (List.find _ (timers m)) as [t|] eqn:Hf; [|exact Hd].
    destruct (timers m) as [|t0 [|t1 ts]] eqn:Hm;
      [discriminate | | contradiction].
    apply (find_singleton tid t t0) in Hf. destruct Hf as [-> Htid].
    unfold intervalCallback. rewrite Hm.
    destruct (Z.ltb 0 (count t0 - 1)).
    + cbn. rewrite Nat.eqb_refl. reflexivity.
    + cbn [setCount clearInterval map List.filter timerId].
      rewrite Nat.eqb_refl. cbn [timerId negb]. rewrite Nat.eqb_refl. cbn [negb].
      destruct (takePhoto _ _ _ _ _) as [st'|err] eqn:E; cbn; [|reflexivity].
      apply (takePhoto_only_photos drawMirrored toDataURL) in E.
      destruct E as [_ E]. exact E.
  - exact Hd.
  - exact Hd.
  - unfold Caption.handleGenerateCaption_call.
    destruct (Nat.eqb _ 0); [exact Hd|].
    destruct (nth_error _ _); exact Hd.
  - exact Hd.
Qed.

Lemma reachable_display (m : Machine) :
  reachable m -> countdownInv m /\ displayMatches m.
Proof.
  intros [evs ->]. unfold Countdown.run.
  assert (H0 : countdownInv initialMachine /\ displayMatches initialMachine).
  { split; [|reflexivity].
    repeat split; cbn; try lia; try constructor. congruence. }
  revert H0. generalize initialMachine.
  induction evs as [|ev evs IH]; intros m0 [Hi Hd]; cbn; [auto|].
  apply IH. split.
  - now apply step_preserves_inv.
  - now apply step_preserves_display.
Qed.

(** On every reachable page the countdown overlay and the timer agree:
    with no live timer nothing is shown, with a live timer its count is
    shown, which is 1, 2 or 3; and an idle page (shutter enabled) shows
    nothing. *)
Theorem overlay_shows_live_count (m : Machine) :
  reachable m ->
  displayMatches m /\
  (View.overlay (app m) = None \/ View.overlay (app m) = Some 1 \/
   View.overlay (app m) = Some 2 \/ View.overlay (app m) = Some 3) /\
  (View.shutterDisabled (app m) = false -> View.overlay (app m) = None).
Proof.
  intros Hr. destruct (reachable_display m Hr) as [Hinv Hd].
  destruct Hinv as (Hlen & Hcap & Hts & _).
  split; [exact Hd|]. unfold displayMatches, View.overlay, View.shutterDisabled in *.
  destruct (timers m) as [|t [|t' ts]]; [| |contradiction].
  - rewrite Hd. auto.
  - inversion Hts as [|? ? [Hc _] _]; subst. rewrite Hd.
    split.
    + assert (count t = 1 \/ count t = 2 \/ count t = 3) as [->|[->| ->]] by lia;
        auto.
    + intros Hidle. rewrite Hcap in Hidle; discriminate.
Qed.

(** A started countdown up to the moment before its third tick: the
    timer still holds the filter that was selected at the click. *)
Lemma countdown_before_last_tick (m : Machine) :
  countdownInv m -> isCapturing (app m) = false ->
  forall (us0 us1 us2 : list Event) (e1 e2 : Env),
    forallb userAction us0 = true ->
    forallb userAction us1 = true ->
    forallb userAction us2 = true ->
    let m2 := run (run (run m (ClickShutter :: us0))
                       (IntervalFires (nextTimerId m) e1 :: us1))
                  (IntervalFires (nextTimerId m) e2 :: us2) in
    timers m2 = [mkTimer (nextTimerId m) 1 (selectedFilter (app m))] /\
    captures m2 = captures m.
Proof.
  intros (Hlen & Hcap & Hts & Hlog) Hidle us0 us1 us2 e1 e2 H0 H1 H2.
  assert (Hnil : timers m = []).
  { destruct (timers m); [reflexivity|].
    assert (false = true) by (rewrite <- Hidle; apply Hcap; discriminate).
    discriminate. }
  set (tid := nextTimerId m). set (f := selectedFilter (app m)).
  set (mc := step m ClickShutter).
  assert (Hc : timers mc = [mkTimer tid 3 f] /\ captures mc = captures m /\
               isCapturing (app mc) = true).
  { subst mc. cbn. unfold startCountdown. rewrite Hidle, Hnil. cbn. auto. }
  destruct Hc as (Tc & Lc & Cc).
  destruct (user_run_keeps_countdown drawMirrored toDataURL us0 mc H0 Cc)
    as (T0 & L0 & _ & _ & C0).
  rewrite Tc in T0. rewrite Lc in L0.
  destruct (tick_live drawMirrored toDataURL _ tid 3 f e1 T0 ltac:(lia) C0)
    as (Ta & La & _ & Ca).
  destruct (user_run_keeps_countdown drawMirrored toDataURL us1 _ H1 Ca)
    as (T1 & L1 & _ & _ & C1).
  rewrite Ta in T1. rewrite La, L0 in L1.
  destruct (tick_live drawMirrored toDataURL _ tid 2 f e2 T1 ltac:(lia) C1)
    as (Tb & Lb & _ & Cb).
  destruct (user_run_keeps_countdown drawMirrored toDataURL us2 _ H2 Cb)
    as (T2 & L2 & _ & _ & C2).
  rewrite Tb in T2. rewrite Lb, L1 in L2.
  cbv zeta. split; [exact T2 | exact L2].
Qed.

(** The photo a countdown takes is filtered with the filter that was
    selected when the shutter was clicked, not with one selected during
    the countdown: with a valid frame source at the third tick, exactly
    one photo is appended, it carries the name of the filter of the click,
    and the page is idle again. *)
Theorem capture_uses_filter_at_click (m : Machine) :
  reachable m -> isCapturing (app m) = false ->
  forall (us0 us1 us2 : list Event) (e1 e2 e3 : Env),
    forallb userAction us0 = true ->
    forallb userAction us1 = true ->
    forallb userAction us2 = true ->
    validFrameSource e3 ->
    let m2 := run (run (run m (ClickShutter :: us0))
                       (IntervalFires (nextTimerId m) e1 :: us1))
                  (IntervalFires (nextTimerId m) e2 :: us2) in
    let m3 := step m2 (IntervalFires (nextTimerId m) e3) in
    exists p,
      photos (app m3) = photos (app m2) ++ [p] /\
      filter p = name (selectedFilter (app m)) /\
      isCapturing (app m3) = false /\
      countdown (app m3) = None /\
      timers m3 = [].
Proof.
  intros Hr Hidle us0 us1 us2 e1 e2 e3 H0 H1 H2 Hvalid m2 m3.
  pose proof (reachable_inv drawMirrored toDataURL m Hr) as Hinv.
  destruct (countdown_before_last_tick m Hinv Hidle us0 us1 us2 e1 e2 H0 H1 H2)
    as [T2 _].
  fold m2 in T2.
  set (f := selectedFilter (app m)) in *. set (tid := nextTimerId m) in *.
  assert (E : m3 = intervalCallback drawMirrored toDataURL (mkTimer tid 1 f) e3 m2).
  { subst m3. pose proof (tick_singleton drawMirrored toDataURL
                            (mkTimer tid 1 f) e3 m2 T2) as E.
    exact E. }
  destruct Hvalid as (video & canvas & Hv & Hc & Hctx & Hw & Hh).
  destruct (capturedPixels_returns drawMirrored e3 f video Hw Hh) as [px Hpx].
  rewrite E. unfold intervalCallback.
  cbn [count timerId closureFilter Z.sub Z.add Z.opp Z.pos_sub Z.ltb Z.compare].
  rewrite T2. cbn [setCount clearInterval map List.filter timerId].
  rewrite Nat.eqb_refl. cbn [timerId negb]. rewrite Nat.eqb_refl. cbn [negb].
  unfold takePhoto. rewrite Hv, Hc, Hctx. cbn [negb]. rewrite Hpx.
  exists (newPhoto toDataURL e3 f video px). cbn. auto.
Qed.

(** Only the third tick of a live timer re-enables the shutter. A page
    with the shutter disabled and no live timer stays so under every
    sequence of events: no countdown starts and no photo is taken again. *)
Theorem shutter_stays_locked (m : Machine) (evs : list Event) :
  isCapturing (app m) = true -> timers m = [] ->
  isCapturing (app (run m evs)) = true /\
  timers (run m evs) = [] /\
  captures (run m evs) = captures m.
Proof.
  revert m. induction evs as [|ev evs IH]; intros m Hc Ht; [cbn; auto|].
  change (run m (ev :: evs)) with (run (step m ev) evs).
  assert (H : isCapturing (app (step m ev)) = true /\
              timers (step m ev) = [] /\ captures (step m ev) = captures m).
  { destruct (userAction ev) eqn:Hu.
    - destruct (user_step_keeps_countdown drawMirrored toDataURL m ev Hu Hc)
        as (T & L & _ & _ & C).
      fold step in T, L, C. rewrite T, L, C. auto.
    - destruct ev; try discriminate. cbn. rewrite Ht. cbn. auto. }
  destruct H as (C & T & L).
  destruct (IH (step m ev) C T) as (C' & T' & L').
  rewrite C', T', L', L. auto.
Qed.

End CountdownMore.

Lemma overlay_shows_live_count_witness :
  let m := Countdown.run Samples.draw Samples.encode Countdown.initialMachine
             [Countdown.ClickShutter; Countdown.IntervalFires 0 Samples.env] in
  Terms.displayMatches m /\ View.overlay (Countdown.app m) = Some 2.
Proof.
  intros m. split; [|reflexivity].
  apply (overlay_shows_live_count Samples.draw Samples.encode m).
  exists [Countdown.ClickShutter; Countdown.IntervalFires 0 Samples.env].
  reflexivity.
Defined.

Lemma capture_uses_filter_at_click_witness :
  let m3 := Countdown.run Samples.draw Samples.encode Countdown.initialMachine
              [Countdown.ClickShutter; Countdown.SelectFilter Samples.sepia;
               Countdown.IntervalFires 0 Samples.env;
               Countdown.IntervalFires 0 Samples.env;
               Countdown.IntervalFires 0 Samples.env] in
  selectedFilter (Countdown.app m3) = Samples.sepia /\
  exists p, photos (Countdown.app m3) = [p] /\ filter p = "normal".
Proof.
  intros m3. split; [reflexivity|].
  assert (R : Countdown.reachable Samples.draw Samples.encode
                Countdown.initialMachine) by (exists []; reflexivity).
  assert (V : Capture.validFrameSource Samples.env).
  { exists Samples.video, Samples.canvas. cbn. repeat split; lia. }
  destruct (capture_uses_filter_at_click Samples.draw Samples.encode
              Countdown.initialMachine R eq_refl
              [Countdown.SelectFilter Samples.sepia] [] []
              Samples.env Samples.env Samples.env eq_refl eq_refl eq_refl V)
    as (p & Hp & Hf & _).
  exists p. split; [exact Hp | exact Hf].
Defined.

Lemma shutter_stays_locked_witness :
  let stuck := Countdown.run Samples.draw Samples.encode Countdown.initialMachine
                 [Countdown.SelectFilter Samples.sepia; Countdown.ClickShutter;
                  Countdown.IntervalFires 0 MoreSamples.blankEnv;
                  Countdown.IntervalFires 0 MoreSamples.blankEnv;
                  Countdown.IntervalFires 0 MoreSamples.blankEnv] in
  let later := Countdown.run Samples.draw Samples.encode stuck
                 [Countdown.ClickShutter; Countdown.IntervalFires 1 Samples.env;
                  Countdown.ClickClear; Countdown.ClickShutter] in
  isCapturing (Countdown.app later) = true /\
  Countdown.timers later = [] /\
  Countdown.captures later = [0%nat].
Proof.
  intros stuck later.
  exact (shutter_stays_locked Samples.draw Samples.encode stuck
           [Countdown.ClickShutter; Countdown.IntervalFires 1 Samples.env;
            Countdown.ClickClear; Countdown.ClickShutter]
           eq_refl eq_refl).
Defined.

(** ** String splitting *)

Module SplitFacts.

Import Terms.

Lemma split_without_sep (sep : ascii) (s : string) :
  occurs sep s = false -> split sep s = [s].
Proof.
  induction s as [|c s IH]; cbn; [reflexivity|].
  intros H. apply orb_false_iff in H. destruct H as [Hc Hs].
  rewrite Hc, (IH Hs). reflexivity.
Qed.

Lemma split_at_first_sep (sep : ascii) (a b : string) :
  occurs sep a = false ->
  split sep (a ++ String sep b) = a :: split sep b.
Proof.
  induction a as [|c a IH]; cbn.
  - intros _. now rewrite Ascii.eqb_refl.
  - intros H. apply orb_false_iff in H. destruct H as [Hc Ha].
    rewrite Hc, (IH Ha). reflexivity.
Qed.

Lemma split_cons (sep : ascii) (s : string) :
  exists w ws, split sep s = w :: ws.
Proof.
  destruct (split sep s) as [|w ws] eqn:E; [|eauto].
  exfalso. now apply (WrapFacts.split_nonempty sep s).
Qed.

Lemma concat_cons (sep x : string) (w : string) (ws : list string) :
  String.concat sep (x :: w :: ws) = (x ++ sep ++ String.concat sep (w :: ws))%string.
Proof. reflexivity. Qed.

Lemma concat_head (sep : string) (c : ascii) (w : string) (ws : list string) :
  String.concat sep (String c w :: ws) = String c (String.concat sep (w :: ws)).
Proof. destruct ws; reflexivity. Qed.

Lemma join_split (sep : ascii) (s : string) :
  String.concat (String sep EmptyString) (split sep s) = s.
Proof.
  induction s as [|c s IH]; [reflexivity|].
  cbn [split].
  destruct (split_cons sep s) as (w & ws & E).
  rewrite E in *.
  destruct (Ascii.eqb_spec c sep) as [->|Hne].
  - rewrite concat_cons, IH. reflexivity.
  - rewrite concat_head, IH. reflexivity.
Qed.

End SplitFacts.

(** Splitting a string at a character and joining the pieces with that
    character gives the string back; in particular the words of a caption
    joined by single spaces are the caption. *)
Theorem split_join_round_trip (sep : ascii) (s : string) :
  String.concat (String sep EmptyString) (split sep s) = s.
Proof.
  induction s as [|c s IH]; [reflexivity|].
  cbn [split].
  destruct (SplitFacts.split_cons sep s) as (w & ws & E).
  rewrite E in *.
  destruct (Ascii.eqb_spec c sep) as [->|Hne].
  - rewrite SplitFacts.concat_cons, IH. reflexivity.
  - rewrite SplitFacts.concat_head, IH. reflexivity.
Qed.

(** ** Captioning *)

Section CaptionMore.

Import Gemini Caption Terms.

(** What generateVintageCaption settles with follows the answer of the
    service. With a usable key: a non-empty text in the answer is the
    caption, unchanged; an answer without text, or with an empty one,
    gives "Vibe check passed."; a rejected request gives "Error
    developing caption...". In every case the caption is not empty. *)
Theorem caption_follows_the_answer (e : Gemini.Env) (img : string) :
  (forall ai response t,
      getAiClient e = Returned ai ->
      generateContent e (requestFor ai img) = Returned response ->
      text response = Some t -> t <> EmptyString ->
      snd (generateVintageCaption e img) = Returned t) /\
  (forall ai response,
      getAiClient e = Returned ai ->
      generateContent e (requestFor ai img) = Returned response ->
      text response = None \/ text response = Some EmptyString ->
      snd (generateVintageCaption e img) = Returned "Vibe check passed.") /\
  (forall ai err,
      getAiClient e = Returned ai ->
      generateContent e (requestFor ai img) = Thrown err ->
      snd (generateVintageCaption e img) = Returned "Error developing caption...") /\
  (forall caption,
      snd (generateVintageCaption e img) = Returned caption ->
      caption <> EmptyString).
Proof.
  unfold generateVintageCaption, tryBlock.
  repeat split.
  - intros ai response t -> -> Ht Hne. cbn. rewrite Ht.
    destruct t; [congruence | reflexivity].
  - intros ai response -> -> [Ht|Ht]; cbn; rewrite Ht; reflexivity.
  - intros ai err -> ->. reflexivity.
  - intros caption.
    destruct (getAiClient e) as [ai|err]; cbn; [|intros [= <-]; discriminate].
    destruct (generateContent e (requestFor ai img)) as [response|err];
      [|intros [= <-]; discriminate].
    destruct (text response) as [[|c t]|]; cbn; intros [= <-]; discriminate.
Qed.

(** The remote service is contacted only with a usable key: without a
    key, or with an empty one, no request leaves; with a key exactly one
    request is sent, carrying that key, the model name, the PNG type and
    the fixed prompt. *)
Theorem request_sent_only_with_key (e : Gemini.Env) (img : string) :
  fst (generateVintageCaption e img) =
    match REACT_API_KEY e with
    | Some key =>
        if truthy key
        then [mkRequest key "gemini-2.5-flash" "image/png"
                        (nth_error (split "," img) 1) PROMPT]
        else []
    | None => []
    end.
Proof.
  unfold generateVintageCaption, tryBlock, getAiClient.
  destruct (REACT_API_KEY e) as [key|]; [|reflexivity].
  destruct (truthy key); reflexivity.
Qed.

(** What is sent as image data is the part of the data URL after its
    header: for [header ++ "," ++ payload] with no comma in the header or
    the payload, the payload; for a string with no comma at all, nothing
    (the field is undefined). *)
Theorem request_carries_payload (ai header payload img : string) :
  (occurs "," header = false -> occurs "," payload = false ->
   data (requestFor ai (header ++ String "," payload)) = Some payload) /\
  (occurs "," img = false -> data (requestFor ai img) = None).
Proof.
  unfold requestFor. cbn [data]. split.
  - intros Hh Hp.
    rewrite SplitFacts.split_at_first_sep by exact Hh.
    rewrite SplitFacts.split_without_sep by exact Hp. reflexivity.
  - intros Hi. rewrite SplitFacts.split_without_sep by exact Hi. reflexivity.
Qed.

End CaptionMore.

Lemma request_carries_payload_witness :
  Gemini.data (Gemini.requestFor "k3y" "data:image/png;base64,AAAA") = Some "AAAA" /\
  Gemini.data (Gemini.requestFor "k3y" "not a data url") = None.
Proof.
  split.
  - exact (proj1 (request_carries_payload "k3y" "data:image/png;base64" "AAAA"
                    EmptyString) eq_refl eq_refl).
  - exact (proj2 (request_carries_payload "k3y" EmptyString EmptyString
                    "not a data url") eq_refl).
Defined.

Lemma caption_follows_the_answer_witness :
  snd (Gemini.generateVintageCaption MoreSamples.geminiAnswers
         "data:image/png;base64,AAAA") = Returned "Totally rad." /\
  snd (Gemini.generateVintageCaption MoreSamples.geminiSilent
         "data:image/png;base64,AAAA") = Returned "Vibe check passed.".
Proof.
  split.
  - exact (proj1 (caption_follows_the_answer MoreSamples.geminiAnswers
                    "data:image/png;base64,AAAA")
             "k3y" (Gemini.mkResponse (Some "Totally rad.")) "Totally rad."
             eq_refl eq_refl eq_refl ltac:(discriminate)).
  - exact (proj1 (proj2 (caption_follows_the_answer MoreSamples.geminiSilent
                           "data:image/png;base64,AAAA"))
             "k3y" (Gemini.mkResponse None) eq_refl eq_refl (or_introl eq_refl)).
Defined.

(** ** The caption area while a request is pending *)

Section PendingCaption.

Import Capture Countdown.

Variable drawMirrored : string -> Video -> list Z.
Variable toDataURL : Z -> Z -> list Z -> string.

Let step := Countdown.step drawMirrored toDataURL.
Let run := Countdown.run drawMirrored toDataURL.

(** An event that is neither the reset nor an answer keeps a pending
    request pending and drops no photo. *)
Lemma step_keeps_request (n : nat) (m : Machine) (ev : Event) :
  Terms.leavesRequestAlone ev = true ->
  (n <= List.length (photos (app m)))%nat ->
  isGeneratingCaption (app m) = true ->
  (n <= List.length (photos (app (step m ev))))%nat /\
  isGeneratingCaption (app (step m ev)) = true.
Proof.
  intros Hev Hn Hg. destruct ev as [|tid e|f| | |caption]; try discriminate; cbn.
  - unfold startCountdown. destruct (isCapturing (app m)); cbn; auto.
  - destruct (List.find _ _) as [t|]; [|auto].
    unfold intervalCallback.
    destruct (Z.ltb 0 (count t - 1)); cbn; [auto|].
    destruct (takePhoto _ _ _ _ _) as [st'|err] eqn:E; cbn; [|auto].
    apply takePhoto_shape in E. destruct E as [-> | [url ->]]; cbn; [auto|].
    rewrite length_app. cbn. split; [lia | exact Hg].
  - auto.
  - unfold Caption.handleGenerateCaption_call.
    destruct (Nat.eqb _ 0); [auto|].
    destruct (nth_error _ _); cbn; auto.
Qed.

Lemma run_keeps_request (n : nat) (us : list Event) :
  forall m,
    forallb Terms.leavesRequestAlone us = true ->
    (n <= List.length (photos (app m)))%nat ->
    isGeneratingCaption (app m) = true ->
    (n <= List.length (photos (app (run m us))))%nat /\
    isGeneratingCaption (app (run m us)) = true.
Proof.
  induction us as [|ev us IH]; intros m Hus Hn Hg; [cbn; auto|].
  cbn in Hus. apply andb_true_iff in Hus. destruct Hus as [Hev Hus].
  destruct (step_keeps_request n m ev Hev Hn Hg) as [Hn' Hg'].
  change (run m (ev :: us)) with (run (step m ev) us).
  now apply IH.
Qed.

(** From the click on the caption button, on a page with photos, until
    the answer arrives, the caption area shows the spinner, whatever
    else happens meanwhile short of a reset or another answer (shutter
    clicks, ticks and captures, filter changes, further caption clicks);
    when the answer arrives the area shows it, and no photo was lost. *)
Theorem spinner_until_the_answer
    (m : Machine) (us : list Event) (caption : string) :
  photos (app m) <> [] ->
  forallb Terms.leavesRequestAlone us = true ->
  caption <> EmptyString ->
  let m1 := run (step m ClickCaption) us in
  let m2 := step m1 (CaptionSettled caption) in
  View.captionArea (app (step m ClickCaption)) = View.Consulting /\
  View.captionArea (app m1) = View.Consulting /\
  View.captionArea (app m2) = View.Quoted caption /\
  (List.length (photos (app m)) <= List.length (photos (app m2)))%nat.
Proof.
  intros Hne Hus Hc m1 m2.
  assert (Hpos : (1 <= List.length (photos (app m)))%nat).
  { destruct (photos (app m)); [congruence | cbn; lia]. }
  assert (H0 : (List.length (photos (app m))
                <= List.length (photos (app (step m ClickCaption))))%nat /\
               isGeneratingCaption (app (step m ClickCaption)) = true).
  { cbn. unfold Caption.handleGenerateCaption_call.
    destruct (Nat.eqb_spec (List.length (photos (app m))) 0) as [E|E]; [lia|].
    destruct (nth_error _ _) as [p|] eqn:Hp; cbn; [auto|].
    apply nth_error_None in Hp. lia. }
  destruct H0 as [Hn0 Hg0].
  destruct (run_keeps_request (List.length (photos (app m))) us
              (step m ClickCaption) Hus Hn0 Hg0) as [Hn1 Hg1].
  fold m1 in Hn1, Hg1.
  assert (A : forall st, (1 <= List.length (photos st))%nat ->
                isGeneratingCaption st = true ->
                View.captionArea st = View.Consulting).
  { intros st Hl Hg. unfold View.captionArea. rewrite Hg.
    destruct (Nat.ltb_spec 0 (List.length (photos st))); [reflexivity | lia]. }
  split; [apply A; [lia | exact Hg0]|].
  split; [apply A; [lia | exact Hg1]|].
  subst m2.
  change (app (step m1 (CaptionSettled caption)))
    with (Caption.handleGenerateCaption_resume caption (app m1)).
  unfold View.captionArea, Caption.handleGenerateCaption_resume.
  cbn [photos isGeneratingCaption generatedCaption setIsGeneratingCaption
         setGeneratedCaption].
  destruct (Nat.ltb_spec 0 (List.length (photos (app m1)))); [|lia].
  destruct caption; [congruence|]. cbn [truthy]. split; [reflexivity | lia].
Qed.

End PendingCaption.

Lemma spinner_until_the_answer_witness :
  let m := Countdown.mkMachine Samples.twoPhotos [] 0%nat [] in
  let m2 := Countdown.run Samples.draw Samples.encode m
              [Countdown.ClickCaption; Countdown.ClickShutter;
               Countdown.SelectFilter Samples.sepia;
               Countdown.CaptionSettled "Totally rad."] in
  View.captionArea (Countdown.app m2) = View.Quoted "Totally rad.".
Proof.
  intros m m2.
  exact (proj1 (proj2 (proj2
           (spinner_until_the_answer Samples.draw Samples.encode m
              [Countdown.ClickShutter; Countdown.SelectFilter Samples.sepia]
              "Totally rad." ltac:(discriminate) eq_refl ltac:(discriminate))))).
Defined.

(** ** Reset while a caption is being generated *)

Section ResetMore.

Import Capture Countdown.

Variable drawMirrored : string -> Video -> list Z.
Variable toDataURL : Z -> Z -> list Z -> string.

Let run := Countdown.run drawMirrored toDataURL.

(** clearPhotos does not cancel a caption request in flight: when the
    reset is clicked between the request and its answer, the answer is
    still stored, so the emptied page holds the caption of the strip that
    was thrown away, and the caption area shows it as soon as the next
    photo is taken. *)
Theorem late_caption_survives_reset (m : Machine) (caption : string) :
  photos (app m) <> [] ->
  let m' := run m [ClickCaption; ClickClear; CaptionSettled caption] in
  photos (app m') = [] /\
  generatedCaption (app m') = caption /\
  isGeneratingCaption (app m') = false /\
  (caption <> EmptyString ->
   forall p,
     View.captionArea (setPhotos (fun prev => prev ++ [p]) (app m'))
     = View.Quoted caption).
Proof.
  intros Hne m'. subst m'. unfold run, Countdown.run.
  cbn [fold_left Countdown.step].
  assert (E : exists st1, Caption.handleGenerateCaption_call (app m)
                          = Returned (setIsGeneratingCaption true (app m), st1)).
  { destruct (exists_last Hne) as (ps & p & Hp).
    unfold Caption.handleGenerateCaption_call. rewrite Hp, last_photo.
    rewrite length_app. cbn [List.length].
    destruct (Nat.eqb_spec (List.length ps + 1) 0); [lia | eauto]. }
  destruct E as [st1 E]. rewrite E. cbn.
  repeat split.
  intros Hc p. unfold View.captionArea. cbn.
  destruct caption; [congruence | reflexivity].
Qed.

End ResetMore.

Lemma late_caption_survives_reset_witness :
  let m := Countdown.mkMachine Samples.twoPhotos [] 0%nat [] in
  let m' := Countdown.run Samples.draw Samples.encode m
              [Countdown.ClickCaption; Countdown.ClickClear;
               Countdown.CaptionSettled "Totally rad."] in
  photos (Countdown.app m') = [] /\
  generatedCaption (Countdown.app m') = "Totally rad.".
Proof.
  intros m m'.
  destruct (late_caption_survives_reset Samples.draw Samples.encode m
              "Totally rad." ltac:(discriminate)) as (P & C & _).
  split; [exact P | exact C].
Defined.

(** ** Composite exporter: photo cells *)

Module CellFacts.

Import Exporter Terms.

Lemma imagesDrawn_app (a b : list DrawOp) :
  imagesDrawn (a ++ b) = imagesDrawn a ++ imagesDrawn b.
Proof.
  induction a as [|op a IH]; [reflexivity|].
  destruct op; cbn; rewrite IH; reflexivity.
Qed.

Lemma imagesDrawn_drawPhotos (ps : list Photo) :
  forall k, imagesDrawn (drawPhotos k ps) = map dataUrl ps.
Proof.
  induction ps as [|p ps IH]; intros k; [reflexivity|].
  cbn. now rewrite IH.
Qed.

Lemma wrapLoop_texts (width_of : string -> Q) (canvasW cx : Z) (words : list string) :
  forall n line y,
    Forall (fun op => exists text ty, op = FillText captionFont "#555" text cx ty)
           (wrapLoop width_of canvasW cx words n line y).
Proof.
  induction words as [|w rest IH]; intros n line y; cbn [wrapLoop].
  - constructor; [eauto | constructor].
  - destruct (_ && _); [constructor; [eauto|] |]; apply IH.
Qed.

Lemma drawCaption_texts (width_of : string -> Q) (canvasW cx h : Z) (caption : string) :
  Forall (fun op => exists text ty, op = FillText captionFont "#555" text cx ty)
         (drawCaption width_of canvasW cx caption h).
Proof.
  unfold drawCaption. destruct (truthy caption); [apply wrapLoop_texts | constructor].
Qed.

Lemma imagesDrawn_texts (cx : Z) (ops : list DrawOp) :
  Forall (fun op => exists text ty, op = FillText captionFont "#555" text cx ty) ops ->
  imagesDrawn ops = [].
Proof.
  induction 1 as [|op ops (text & ty & ->) _ IH]; [reflexivity | exact IH].
Qed.

(** The image calls of [drawPhotos], entered at index [k]. *)
Lemma In_drawPhotos (ps : list Photo) :
  forall k src x y w h,
    In (DrawImage src x y w h) (drawPhotos k ps) ->
    exists i p,
      (k <= i < k + List.length ps)%nat /\
      nth_error ps (i - k) = Some p /\ src = dataUrl p /\
      x = cellX i /\ y = cellY i /\ w = photoWidth /\ h = photoHeight.
Proof.
  induction ps as [|p ps IH]; intros k src x y w h Hin; [destruct Hin|].
  cbn [drawPhotos] in Hin.
  destruct Hin as [H|[H|[H|Hin]]]; try discriminate.
  - injection H as <- <- <- <- <-.
    exists k, p. rewrite Nat.sub_diag. cbn [List.length nth_error].
    repeat split; lia.
  - destruct (IH _ _ _ _ _ _ Hin) as (i & q & Hi & Hq & Hs & Hx & Hy & Hw & Hh).
    exists i, q. cbn [List.length]. repeat split; try assumption; try lia.
    replace (i - k)%nat with (S (i - S k)) by lia. exact Hq.
Qed.

Lemma drawPhotos_In (ps : list Photo) :
  forall k i p,
    nth_error ps i = Some p ->
    In (DrawImage (dataUrl p) (cellX (k + i)) (cellY (k + i)) photoWidth photoHeight)
       (drawPhotos k ps).
Proof.
  induction ps as [|q ps IH]; intros k i p Hp; [destruct i; discriminate|].
  cbn [drawPhotos]. destruct i as [|i].
  - injection Hp as ->. rewrite Nat.add_0_r. right. left. reflexivity.
  - right. right. right.
    replace (k + S i)%nat with (S k + i)%nat by lia. now apply IH.
Qed.

(** A cell of a strip of [n] photos lies inside the grid area. *)
Lemma cell_inside (n i : nat) :
  (i < n)%nat ->
  padding <= cellX i /\ cellX i + photoWidth <= stripWidth - padding /\
  padding <= cellY i /\
  cellY i + photoHeight <= stripHeight n - padding - bottomLabelHeight.
Proof.
  intros Hi. unfold stripHeight, contentHeight.
  rewrite LayoutFacts.rowsOf_cases.
  destruct (Nat.eqb_spec n 0); [lia|].
  unfold cellX, cellY, stripWidth, contentWidth, cols, padding,
    photoWidth, photoHeight, gap, bottomLabelHeight.
  Z.to_euclidean_division_equations. lia.
Qed.

(** Two different cells are at least one gap apart. *)
Lemma cells_apart (i j : nat) :
  i <> j ->
  cellX i + photoWidth + gap <= cellX j \/
  cellX j + photoWidth + gap <= cellX i \/
  cellY i + photoHeight + gap <= cellY j \/
  cellY j + photoHeight + gap <= cellY i.
Proof.
  intros Hne.
  unfold cellX, cellY, cols, padding, photoWidth, photoHeight, gap.
  Z.to_euclidean_division_equations. lia.
Qed.

End CellFacts.

(** The export draws one image per photo, in the order of the collection,
    each 300 x 225 and inside the grid area: never in the padding and
    never over the label band at the bottom. *)
Theorem photos_drawn_in_order_inside_grid
    (e : Exporter.Env) (st : AppState) (d : Exporter.Download) :
  Exporter.downloadPhotoStrip e st = Some d ->
  Terms.imagesDrawn (Exporter.ops d) = map dataUrl (photos st) /\
  forall src x y w h,
    In (Exporter.DrawImage src x y w h) (Exporter.ops d) ->
    w = 300 /\ h = 225 /\
    40 <= x /\ x + w <= Exporter.canvasWidth d - 40 /\
    40 <= y /\ y + h <= Exporter.canvasHeight d - 40 - 150.
Proof.
  unfold Exporter.downloadPhotoStrip.
  destruct (negb (Exporter.context2d e)); [discriminate|].
  intros [= <-]. cbn [Exporter.ops Exporter.canvasWidth Exporter.canvasHeight].
  pose proof (CellFacts.drawCaption_texts
                (Exporter.measureText e Exporter.captionFont)
                Exporter.stripWidth (Exporter.stripWidth / 2)
                (Exporter.stripHeight (List.length (photos st)))
                (generatedCaption st)) as Htexts.
  split.
  - cbn [Terms.imagesDrawn].
    rewrite CellFacts.imagesDrawn_app, CellFacts.imagesDrawn_drawPhotos.
    cbn [Terms.imagesDrawn].
    rewrite CellFacts.imagesDrawn_app, (CellFacts.imagesDrawn_texts _ _ Htexts).
    cbn. apply app_nil_r.
  - intros src x y w h Hin.
    destruct Hin as [H|[H|Hin]]; try discriminate.
    apply in_app_or in Hin. destruct Hin as [Hin|[H|Hin]]; try discriminate.
    + apply CellFacts.In_drawPhotos in Hin.
      destruct Hin as (i & p & Hi & _ & _ & -> & -> & -> & ->).
      pose proof (CellFacts.cell_inside (List.length (photos st)) i ltac:(lia)) as C.
      unfold Exporter.padding, Exporter.photoWidth, Exporter.photoHeight,
        Exporter.bottomLabelHeight in *.
      lia.
    + apply in_app_or in Hin. destruct Hin as [Hin|[H|[H|[]]]]; try discriminate.
      rewrite Forall_forall in Htexts.
      destruct (Htexts _ Hin) as (text & ty & H). discriminate.
Qed.

Lemma photos_drawn_in_order_inside_grid_witness :
  exists d,
    Exporter.downloadPhotoStrip Samples.exportEnv Samples.twoPhotos = Some d /\
    Terms.imagesDrawn (Exporter.ops d)
    = ["data:image/png;base64,AAAA"; "data:image/png;base64,BBBB"].
Proof.
  eexists. split; [reflexivity|].
  exact (proj1 (photos_drawn_in_order_inside_grid Samples.exportEnv
                  Samples.twoPhotos _ eq_refl)).
Defined.

(** Two different photos of the collection are drawn in cells that are
    at least the 20-unit gap apart, so no photo, and no 4-unit shadow,
    covers another photo. *)
Theorem photo_cells_are_apart (ps : list Photo) (i j : nat) (pi pj : Photo) :
  nth_error ps i = Some pi -> nth_error ps j = Some pj -> i <> j ->
  In (Exporter.DrawImage (dataUrl pi) (Terms.cellX i) (Terms.cellY i) 300 225)
     (Exporter.drawPhotos 0 ps) /\
  In (Exporter.DrawImage (dataUrl pj) (Terms.cellX j) (Terms.cellY j) 300 225)
     (Exporter.drawPhotos 0 ps) /\
  (Terms.cellX i + 300 + 20 <= Terms.cellX j \/
   Terms.cellX j + 300 + 20 <= Terms.cellX i \/
   Terms.cellY i + 225 + 20 <= Terms.cellY j \/
   Terms.cellY j + 225 + 20 <= Terms.cellY i).
Proof.
  intros Hi Hj Hne.
  split; [exact (CellFacts.drawPhotos_In ps 0 i pi Hi)|].
  split; [exact (CellFacts.drawPhotos_In ps 0 j pj Hj)|].
  exact (CellFacts.cells_apart i j Hne).
Qed.

Lemma photo_cells_are_apart_witness :
  In (Exporter.DrawImage "data:image/png;base64,AAAA" 40 40 300 225)
     (Exporter.drawPhotos 0 (photos Samples.twoPhotos)) /\
  In (Exporter.DrawImage "data:image/png;base64,BBBB" 360 40 300 225)
     (Exporter.drawPhotos 0 (photos Samples.twoPhotos)).
Proof.
  destruct (photo_cells_are_apart (photos Samples.twoPhotos) 0 1
              Samples.photoA Samples.photoB eq_refl eq_refl ltac:(discriminate))
    as (A & B & _).
  split; [exact A | exact B].
Defined.

(** ** Composite exporter: the wrapped caption *)

Module WrapMore.

Import Exporter PieceWrap Terms.

Lemma lineText_app (a b : list string) :
  lineText (a ++ b) = (lineText a ++ lineText b)%string.
Proof.
  induction a as [|w a IH]; [reflexivity|].
  change (lineText ((w :: a) ++ b)) with (w ++ " " ++ lineText (a ++ b))%string.
  change (lineText (w :: a)) with (w ++ " " ++ lineText a)%string.
  rewrite IH, !WrapFacts.append_assoc. reflexivity.
Qed.

Lemma lineText_join (w : string) (ws : list string) :
  lineText (w :: ws) = (String.concat " " (w :: ws) ++ " ")%string.
Proof.
  revert w. induction ws as [|w' ws IH]; intros w; [reflexivity|].
  change (lineText (w :: w' :: ws)) with (w ++ " " ++ lineText (w' :: ws))%string.
  rewrite IH, SplitFacts.concat_cons, !WrapFacts.append_assoc. reflexivity.
Qed.

Lemma captionText_lines (cx : Z) (lines : list (list string * Z)) :
  captionText (map (fun l => FillText captionFont "#555" (lineText (fst l)) cx (snd l))
                   lines)
  = lineText (List.concat (map fst lines)).
Proof.
  induction lines as [|l lines IH]; [reflexivity|].
  cbn [map captionText List.concat]. rewrite String.eqb_refl, IH, lineText_app.
  reflexivity.
Qed.

(** What the loop draws, as the lines of the greedy wrap. *)
Lemma drawCaption_lines (width_of : string -> Q) (canvasW cx h : Z) (caption : string) :
  caption <> EmptyString ->
  drawCaption width_of canvasW cx caption h
  = map (fun l => FillText captionFont "#555" (lineText (fst l)) cx (snd l))
        (greedy width_of (canvasW - 60) (split " " caption) [] (h - 60)).
Proof.
  intros Hc. unfold drawCaption. destruct caption; [congruence|]. cbn [truthy].
  apply (WrapFacts.wrapLoop_greedy width_of canvasW cx _ [] 0 (h - 60)).
  reflexivity.
Qed.

Section Fits.

Variable width_of : string -> Q.
Variable limit : Z.

Lemma greedy_fits (words : list string) :
  forall cur y,
    fitsOrSingle width_of limit cur ->
    Forall (fun l => fitsOrSingle width_of limit (fst l))
           (greedy width_of limit words cur y).
Proof.
  induction words as [|w rest IH]; intros cur y Hcur; cbn [greedy].
  - constructor; [exact Hcur | constructor].
  - destruct (exceeds width_of limit cur w && hasWord cur) eqn:E.
    + constructor; [exact Hcur|]. apply IH. right. cbn. lia.
    + apply IH. apply andb_false_iff in E. destruct E as [E|E].
      * left. unfold exceeds, Qlt_bool in E. apply negb_false_iff in E.
        now apply Qle_bool_iff in E.
      * right. destruct cur; [cbn; lia | discriminate].
Qed.

Lemma greedy_has_line (words : list string) :
  forall cur y, (1 <= List.length (greedy width_of limit words cur y))%nat.
Proof.
  induction words as [|w rest IH]; intros cur y; cbn [greedy].
  - cbn. lia.
  - destruct (exceeds width_of limit cur w && hasWord cur); [cbn; lia | apply IH].
Qed.

Lemma concat_length (ls : list (list string)) :
  Forall (fun l => l <> []) ls ->
  (List.length ls <= List.length (List.concat ls))%nat.
Proof.
  induction 1 as [|l ls Hl _ IH]; [reflexivity|].
  cbn. rewrite length_app. destruct l; [congruence|]. cbn. lia.
Qed.

End Fits.

End WrapMore.

(** The lines drawn for a caption, read one after the other, spell the
    caption exactly, followed by one space: the wrap loses, adds and
    reorders nothing, repeated spaces included. *)
Theorem wrapped_text_is_caption
    (width_of : string -> Q) (canvasW cx h : Z) (caption : string) :
  caption <> EmptyString ->
  Terms.captionText (Exporter.drawCaption width_of canvasW cx caption h)
  = (caption ++ " ")%string.
Proof.
  intros Hc.
  rewrite WrapMore.drawCaption_lines by exact Hc.
  rewrite WrapMore.captionText_lines.
  rewrite (WrapFacts.greedy_concat width_of canvasW (split " " caption) [] (h - 60)).
  cbn [app].
  destruct (SplitFacts.split_cons " " caption) as (w & ws & E).
  rewrite E, WrapMore.lineText_join, <- E.
  now rewrite (SplitFacts.join_split " " caption).
Qed.

Lemma wrapped_text_is_caption_witness :
  Terms.captionText (Exporter.drawCaption Samples.monoWidth 230 115 Samples.fox 700)
  = "The quick brown fox jumps over the lazy dog ".
Proof.
  exact (wrapped_text_is_caption Samples.monoWidth 230 115 700 Samples.fox
           ltac:(discriminate)).
Defined.

(** A drawn caption line is wider than canvas width - 60 only when it
    consists of a single word of the caption (which cannot be broken);
    every line of two or more words fits. *)
Theorem wide_line_is_single_word
    (width_of : string -> Q) (canvasW cx h : Z) (caption : string) :
  caption <> EmptyString ->
  Forall (fun op =>
            exists text y,
              op = Exporter.FillText Exporter.captionFont "#555" text cx y /\
              ((width_of text <= inject_Z (canvasW - 60))%Q \/
               exists w, In w (split " " caption) /\ text = (w ++ " ")%string))
         (Exporter.drawCaption width_of canvasW cx caption h).
Proof.
  intros Hc.
  rewrite WrapMore.drawCaption_lines by exact Hc.
  set (words := split " " caption).
  set (lines := PieceWrap.greedy width_of (canvasW - 60) words [] (h - 60)).
  assert (Hfit : Forall (fun l => Terms.fitsOrSingle width_of (canvasW - 60) (fst l))
                        lines).
  { apply WrapMore.greedy_fits. right. cbn. lia. }
  assert (Hne : Forall (fun l => fst l <> []) lines).
  { apply WrapFacts.greedy_lines_nonempty. left. apply WrapFacts.split_nonempty. }
  assert (Hsub : forall l w, In l lines -> In w (fst l) -> In w words).
  { intros l w Hl Hw.
    pose proof (WrapFacts.greedy_concat width_of canvasW words [] (h - 60)) as Hcat.
    fold lines in Hcat. cbn [app] in Hcat. rewrite <- Hcat.
    apply in_concat. exists (fst l). split; [now apply in_map | exact Hw]. }
  apply Forall_map. rewrite Forall_forall in *.
  intros l Hl. exists (PieceWrap.lineText (fst l)), (snd l).
  split; [reflexivity|].
  destruct (Hfit l Hl) as [H|H]; [now left|].
  right. specialize (Hne l Hl). specialize (Hsub l).
  destruct (fst l) as [|w [|w' ws]]; [congruence | | cbn in H; lia].
  exists w. split; [apply Hsub; [exact Hl | now left] | reflexivity].
Qed.

Lemma wide_line_is_single_word_witness :
  Forall (fun op =>
            exists text y,
              op = Exporter.FillText Exporter.captionFont "#555" text 115 y /\
              ((Samples.monoWidth text <= inject_Z (100 - 60))%Q \/
               exists w, In w (split " " "a bc overlong") /\ text = (w ++ " ")%string))
         (Exporter.drawCaption Samples.monoWidth 100 115 "a bc overlong" 700).
Proof.
  exact (wide_line_is_single_word Samples.monoWidth 100 115 700 "a bc overlong"
           ltac:(discriminate)).
Defined.

(** A non-empty caption is drawn on at least one line and on no more
    lines than it has space-separated words. *)
Theorem wrap_line_count
    (width_of : string -> Q) (canvasW cx h : Z) (caption : string) :
  caption <> EmptyString ->
  (1 <= List.length (Exporter.drawCaption width_of canvasW cx caption h)
     <= List.length (split " " caption))%nat.
Proof.
  intros Hc.
  rewrite WrapMore.drawCaption_lines by exact Hc. rewrite length_map.
  set (lines := PieceWrap.greedy width_of (canvasW - 60) (split " " caption) []
                  (h - 60)).
  assert (Hne : Forall (fun l => l <> []) (map fst lines)).
  { apply Forall_map.
    apply WrapFacts.greedy_lines_nonempty. left. apply WrapFacts.split_nonempty. }
  pose proof (WrapMore.concat_length _ Hne) as Hlen.
  rewrite length_map in Hlen.
  pose proof (WrapFacts.greedy_concat width_of canvasW (split " " caption) []
                (h - 60)) as Hcat.
  fold lines in Hcat. cbn [app] in Hcat. rewrite Hcat in Hlen.
  split; [|exact Hlen].
  apply WrapMore.greedy_has_line.
Qed.

Lemma wrap_line_count_witness :
  (1 <= List.length (Exporter.drawCaption Samples.monoWidth 230 115 Samples.fox 700)
     <= 9)%nat.
Proof.
  exact (wrap_line_count Samples.monoWidth 230 115 700 Samples.fox
           ltac:(discriminate)).
Defined.

(** ** Identifiers and file names *)

Module NameFacts.

(** The decimal rendering of an integer determines the integer. *)
Lemma toString_inj (a b : Z) : toString a = toString b -> a = b.
Proof.
  unfold toString. intros H.
  assert (N : forall z, Z.to_int z <> Decimal.Pos Decimal.Nil /\
                        Z.to_int z <> Decimal.Neg Decimal.Nil).
  { intros [|p|p]; cbn; split; try discriminate; intros [= E];
      now apply (DecimalPos.Unsigned.to_uint_nonnil p). }
  apply DecimalZ.to_int_inj.
  assert (E : Some (Z.to_int a) = Some (Z.to_int b)).
  { rewrite <- (NilZero.isi (Z.to_int a)) by apply N.
    rewrite <- (NilZero.isi (Z.to_int b)) by apply N.
    now rewrite H. }
  now injection E.
Qed.

Lemma length_append (a b : string) :
  String.length (a ++ b) = (String.length a + String.length b)%nat.
Proof. induction a as [|c a IH]; cbn; [reflexivity | now rewrite IH]. Qed.

Lemma append_cancel_r (s : string) :
  forall a b : string, (a ++ s)%string = (b ++ s)%string -> a = b.
Proof.
  induction a as [|c a IH]; intros [|c' b] H; cbn in H.
  - reflexivity.
  - exfalso. apply (f_equal String.length) in H. cbn in H.
    rewrite length_append in H. lia.
  - exfalso. apply (f_equal String.length) in H. cbn in H.
    rewrite length_append in H. lia.
  - injection H as -> H. f_equal. now apply IH.
Qed.

End NameFacts.

(** Two photos taken one after the other get the same id (the key React
    lists them under) exactly when [Date.now()] gave the same reading at
    both captures; captures at different milliseconds get different ids. *)
Theorem photo_ids_follow_the_clock
    (drawMirrored : string -> Capture.Video -> list Z)
    (toDataURL : Z -> Z -> list Z -> string)
    (e e' : Capture.Env) (f f' : FilterConfig) (st : AppState) :
  Capture.validFrameSource e -> Capture.validFrameSource e' ->
  exists p p' st1 st2,
    Capture.takePhoto drawMirrored toDataURL e f st = Returned st1 /\
    Capture.takePhoto drawMirrored toDataURL e' f' st1 = Returned st2 /\
    photos st2 = photos st ++ [p; p'] /\
    (id p = id p' <-> Capture.nowId e = Capture.nowId e').
Proof.
  intros (v & c & Hv & Hc & Hctx & Hw & Hh) (v' & c' & Hv' & Hc' & Hctx' & Hw' & Hh').
  destruct (capturedPixels_returns drawMirrored e f v Hw Hh) as [px Hpx].
  destruct (capturedPixels_returns drawMirrored e' f' v' Hw' Hh') as [px' Hpx'].
  exists (Capture.newPhoto toDataURL e f v px),
         (Capture.newPhoto toDataURL e' f' v' px').
  eexists _, _. unfold Capture.takePhoto.
  rewrite Hv, Hc, Hctx, Hv', Hc', Hctx', Hpx, Hpx'. cbn [negb].
  split; [reflexivity|]. split; [reflexivity|]. split.
  - cbn. now rewrite <- app_assoc.
  - cbn. split; [apply NameFacts.toString_inj | now intros ->].
Qed.

Lemma photo_ids_follow_the_clock_witness :
  exists p p' st1 st2,
    Capture.takePhoto Samples.draw Samples.encode Samples.env Samples.sepia
                      initialState = Returned st1 /\
    Capture.takePhoto Samples.draw Samples.encode Samples.env FILTERS_0 st1
    = Returned st2 /\
    photos st2 = [p; p'] /\ id p = id p'.
Proof.
  assert (V : Capture.validFrameSource Samples.env).
  { exists Samples.video, Samples.canvas. cbn. repeat split; lia. }
  destruct (photo_ids_follow_the_clock Samples.draw Samples.encode
              Samples.env Samples.env Samples.sepia FILTERS_0 initialState V V)
    as (p & p' & st1 & st2 & E1 & E2 & P & I).
  exists p, p', st1, st2. repeat split; try assumption. now apply I.
Defined.

(** Two exports get the same file name exactly when [Date.now()] gave the
    same reading at both: the name is [retro-booth-], the reading in
    decimal, [.png], whatever the photos and the caption. *)
Theorem export_names_follow_the_clock
    (e e' : Exporter.Env) (st st' : AppState) (d d' : Exporter.Download) :
  Exporter.downloadPhotoStrip e st = Some d ->
  Exporter.downloadPhotoStrip e' st' = Some d' ->
  Exporter.filename d
  = ("retro-booth-" ++ toString (Exporter.now e) ++ ".png")%string /\
  (Exporter.filename d = Exporter.filename d' <-> Exporter.now e = Exporter.now e').
Proof.
  unfold Exporter.downloadPhotoStrip.
  destruct (negb (Exporter.context2d e)); [discriminate|].
  destruct (negb (Exporter.context2d e')); [discriminate|].
  intros [= <-] [= <-]. cbn [Exporter.filename].
  split; [reflexivity|]. split.
  - intros H. cbn in H. injection H as H.
    apply NameFacts.append_cancel_r in H. now apply NameFacts.toString_inj.
  - now intros ->.
Qed.

Lemma export_names_follow_the_clock_witness :
  exists d,
    Exporter.downloadPhotoStrip Samples.exportEnv Samples.twoPhotos = Some d /\
    Exporter.filename d = "retro-booth-1700000009000.png".
Proof.
  eexists. split; [reflexivity|].
  exact (proj1 (export_names_follow_the_clock Samples.exportEnv Samples.exportEnv
                  Samples.twoPhotos initialState _ _ eq_refl eq_refl)).
Defined.

(** ** The filter buttons and the live preview *)

(** For every filter the page offers, once it is selected the live
    preview is styled with that very filter (so the preview shows the
    filter that takePhoto will apply to the canvas) and exactly one
    filter button, its own, is highlighted. *)
Theorem preview_matches_selection (f : FilterConfig) (st : AppState) :
  In f FILTERS ->
  View.previewFilter (setSelectedFilter f st) = Some f /\
  View.highlighted (setSelectedFilter f st) = [f].
Proof.
  intros Hin. unfold View.previewFilter, View.highlighted.
  cbn [setSelectedFilter selectedFilter].
  cbn in Hin.
  destruct Hin as [<-|[<-|[<-|[<-|[<-|[]]]]]]; split; reflexivity.
Qed.

Lemma preview_matches_selection_witness :
  View.previewFilter (setSelectedFilter Samples.sepia initialState)
  = Some Samples.sepia.
Proof.
  exact (proj1 (preview_matches_selection Samples.sepia initialState
                  ltac:(cbn; tauto))).
Defined.

(** ** Camera start-up *)

(** startCamera asks for the camera at most twice: first with the
    preferred constraints and, only when that is refused, once more with
    the basic ones. The first stream obtained is the one stored and shown;
    the user is alerted exactly when both requests are refused, and then
    no stream is stored. *)
Theorem camera_falls_back_once (e : Camera.Env) :
  let o := Camera.startCamera e in
  (Camera.requested o = [Camera.Preferred] \/
   Camera.requested o = [Camera.Preferred; Camera.Basic]) /\
  (In Camera.Basic (Camera.requested o) <->
   exists err, Camera.getUserMedia e Camera.Preferred = Thrown err) /\
  (Camera.alerted o = true <->
   (exists err, Camera.getUserMedia e Camera.Preferred = Thrown err) /\
   (exists err, Camera.getUserMedia e Camera.Basic = Thrown err)) /\
  (Camera.alerted o = true <-> Camera.stream o = None) /\
  (forall ms, Camera.stream o = Some ms ->
     (Camera.getUserMedia e Camera.Preferred = Returned ms \/
      Camera.getUserMedia e Camera.Basic = Returned ms) /\
     Camera.srcObject o = if Camera.videoMounted e then Some ms else None).
Proof.
  unfold Camera.startCamera.
  destruct (Camera.getUserMedia e Camera.Preferred) as [ms|err] eqn:H1;
    [|destruct (Camera.getUserMedia e Camera.Basic) as [ms|err2] eqn:H2];
    cbn; repeat split;
    try solve [ auto | discriminate | eauto
              | intros [H|[H|[]]]; discriminate
              | intros [H|[]]; discriminate
              | intros [? ?]; discriminate
              | intros [[? ?] _]; discriminate
              | intros [_ [? ?]]; discriminate
              | intros ? [= <-]; auto ];
    match goal with H : Some _ = Some _ |- _ => injection H as <- end; auto.
Qed.

(** The cleanup kept from the first render sees the initial, empty
    [stream] cell: unmounting stops no track, also when a stream was
    acquired. *)
Lemma unmount_stops_no_track (e : Camera.Env) :
  snd (Camera.mountThenUnmount e) = [].
Proof. reflexivity. Qed.

Lemma camera_falls_back_once_witness :
  Camera.stream (Camera.startCamera MoreSamples.cameraFallback)
  = Some (Camera.mkStream [7%nat]) /\
  Camera.requested (Camera.startCamera MoreSamples.cameraFallback)
  = [Camera.Preferred; Camera.Basic].
Proof.
  split; [reflexivity|].
  destruct (camera_falls_back_once MoreSamples.cameraFallback) as ([H|H] & _);
    [discriminate H | exact H].
Defined.

(** ** The collection across page events *)

(** No page event rewrites, reorders or partly removes the collection:
    after any event the photos are the same as before, or the same with
    one photo appended (the last tick of a countdown), or none at all
    (the reset button). *)
Theorem photos_only_grow_or_reset
    (drawMirrored : string -> Capture.Video -> list Z)
    (toDataURL : Z -> Z -> list Z -> string)
    (m : Countdown.Machine) (ev : Countdown.Event) :
  let m' := Countdown.step drawMirrored toDataURL m ev in
  photos (Countdown.app m') = photos (Countdown.app m) \/
  (exists p, photos (Countdown.app m') = photos (Countdown.app m) ++ [p] /\
             exists tid e, ev = Countdown.IntervalFires tid e) \/
  (photos (Countdown.app m') = [] /\ ev = Countdown.ClickClear).
Proof.
  destruct ev as [|tid e|f| | |caption]; cbn.
  - unfold Countdown.startCountdown. destruct (isCapturing _); now left.
  - destruct (List.find _ _) as [t|]; [|now left].
    unfold Countdown.intervalCallback.
    destruct (Z.ltb 0 (Countdown.count t - 1)); [now left|].
    destruct (Capture.takePhoto _ _ _ _ _) as [st'|err] eqn:E; [|now left].
    apply takePhoto_shape in E. destruct E as [-> | [url ->]]; [now left|].
    right. left. cbn. eauto.
  - now left.
  - right. right. auto.
  - unfold Caption.handleGenerateCaption_call.
    destruct (Nat.eqb _ 0); [now left|].
    destruct (nth_error _ _); now left.
  - now left.
Qed.
